(** * tap-prometheus: the windowed aggregation and bookmarking loop

    A shallow embedding of [tap_prometheus/__init__.py] and the properties
    of its specification.  The file is organised as the module is:

    - [Calendar]: the date arithmetic behind [datetime.strptime],
      [datetime.utcfromtimestamp], [strftime] and [timestamp] for the one
      format the tap uses, [DATE_FORMAT = '%Y-%m-%dT%H:%M:%SZ'];
    - [Aggregator]: [aggregate];
    - [Tap]: [Context], [get_bookmark], [query_metric], [sync] and
      [Context.print_counts], with the sink written to as a trace of events.

    Integers are Python's unbounded integers, hence [Z].  Dictionaries are
    [gmap]s.  Exceptions are the [Raised] outcome of a run. *)

From Stdlib Require Import ZArith Lia Ascii String QArith Qcanon.
From stdpp Require Import base option strings gmap list list_numbers numbers.

Local Open Scope Z_scope.

(* ===================================================================== *)
(** ** Calendar *)
(* ===================================================================== *)

Module Calendar.

(** The fields of a [datetime] the tap uses; the tap never produces a
    sub-second part in a bookmark. *)
Record datetime := mkdt {
  year : Z; month : Z; day : Z; hour : Z; minute : Z; second : Z
}.

(** [datetime.MINYEAR], [datetime.MAXYEAR]. *)
Definition MINYEAR : Z := 1.
Definition MAXYEAR : Z := 9999.

(** [_is_leap(year)]: [year % 4 == 0 and (year % 100 != 0 or year % 400 == 0)]. *)
Definition is_leap (y : Z) : bool :=
  (y mod 4 =? 0) && (negb (y mod 100 =? 0) || (y mod 400 =? 0)).

(** [_DAYS_IN_MONTH], indexed from 1; [-1] is the placeholder of index 0. *)
Definition DAYS_IN_MONTH (m : Z) : Z :=
  match m with
  | 1 => 31 | 2 => 28 | 3 => 31 | 4 => 30 | 5 => 31 | 6 => 30
  | 7 => 31 | 8 => 31 | 9 => 30 | 10 => 31 | 11 => 30 | 12 => 31
  | _ => -1
  end.

(** [_DAYS_BEFORE_MONTH]. *)
Definition DAYS_BEFORE_MONTH (m : Z) : Z :=
  match m with
  | 1 => 0 | 2 => 31 | 3 => 59 | 4 => 90 | 5 => 120 | 6 => 151
  | 7 => 181 | 8 => 212 | 9 => 243 | 10 => 273 | 11 => 304 | 12 => 334
  | _ => -1
  end.

(** [_days_before_year(year)]. *)
Definition days_before_year (y : Z) : Z :=
  let y' := y - 1 in y' * 365 + y' / 4 - y' / 100 + y' / 400.

(** [_days_in_month(year, month)]. *)
Definition days_in_month (y m : Z) : Z :=
  if (m =? 2) && is_leap y then 29 else DAYS_IN_MONTH m.

(** [_days_before_month(year, month)]. *)
Definition days_before_month (y m : Z) : Z :=
  DAYS_BEFORE_MONTH m + (if (2 <? m) && is_leap y then 1 else 0).

(** [_ymd2ord(year, month, day)]: 0001-01-01 is day 1. *)
Definition ymd2ord (y m d : Z) : Z :=
  days_before_year y + days_before_month y m + d.

Definition DI400Y : Z := 146097.
Definition DI100Y : Z := 36524.
Definition DI4Y : Z := 1461.

(** [_ord2ymd(n)], with Python's floor [divmod]. *)
Definition ord2ymd (n : Z) : Z * Z * Z :=
  let n := n - 1 in
  let n400 := n / DI400Y in
  let n := n mod DI400Y in
  let n100 := n / DI100Y in
  let n := n mod DI100Y in
  let n4 := n / DI4Y in
  let n := n mod DI4Y in
  let n1 := n / 365 in
  let n := n mod 365 in
  let y := n400 * 400 + 1 + n100 * 100 + n4 * 4 + n1 in
  if (n1 =? 4) || (n100 =? 4) then (y - 1, 12, 31)
  else
    let leapyear := (n1 =? 3) && (negb (n4 =? 24) || (n100 =? 3)) in
    let m := Z.shiftr (n + 50) 5 in
    let preceding :=
      DAYS_BEFORE_MONTH m + (if (2 <? m) && leapyear then 1 else 0) in
    if n <? preceding then
      let m' := m - 1 in
      let preceding' :=
        preceding
        - (DAYS_IN_MONTH m' + (if (m' =? 2) && leapyear then 1 else 0)) in
      (y, m', n - preceding' + 1)
    else (y, m, n - preceding + 1).

(** Ordinal of 1970-01-01 and of 9999-12-31 ([date.max.toordinal()]). *)
Definition EPOCH_ORDINAL : Z := 719163.
Definition MAXORDINAL : Z := 3652059.

(** [datetime.utcfromtimestamp(t)] for an integer [t]: the civil UTC time
    [t] seconds after the epoch; outside years 1..9999 Python raises
    (ValueError or OverflowError), which is [None] here. *)
Definition utcfromtimestamp (t : Z) : option datetime :=
  let days := t / 86400 in
  let rem := t mod 86400 in
  let ord := days + EPOCH_ORDINAL in
  if (1 <=? ord) && (ord <=? MAXORDINAL) then
    let '(y, m, d) := ord2ymd ord in
    Some (mkdt y m d (rem / 3600) (rem mod 3600 / 60) (rem mod 60))
  else None.

(** [int(dt.replace(tzinfo=pytz.UTC).timestamp())]: for an aware datetime
    [timestamp()] is [(dt - EPOCH).total_seconds()], a whole number here. *)
Definition timestamp (dt : datetime) : Z :=
  (ymd2ord (year dt) (month dt) (day dt) - EPOCH_ORDINAL) * 86400
  + hour dt * 3600 + minute dt * 60 + second dt.

(** The checks of the [datetime] constructor ([_check_date_fields],
    [_check_time_fields]). *)
Definition valid_datetime (dt : datetime) : bool :=
  (MINYEAR <=? year dt) && (year dt <=? MAXYEAR)
  && (1 <=? month dt) && (month dt <=? 12)
  && (1 <=? day dt) && (day dt <=? days_in_month (year dt) (month dt))
  && (0 <=? hour dt) && (hour dt <=? 23)
  && (0 <=? minute dt) && (minute dt <=? 59)
  && (0 <=? second dt) && (second dt <=? 59).

(** *** [strftime(DATE_FORMAT)] *)

Definition digit (d : Z) : ascii := ascii_of_N (Z.to_N (48 + d)).

(** [%m], [%d], [%H], [%M], [%S]: two digits, zero padded. *)
Definition pad2 (n : Z) (k : string) : string :=
  String (digit (n / 10)) (String (digit (n mod 10)) k).

(** Four digits. *)
Definition pad4 (n : Z) (k : string) : string :=
  String (digit (n / 1000)) (String (digit (n / 100 mod 10))
    (String (digit (n / 10 mod 10)) (String (digit (n mod 10)) k))).

(** [%Y]: the year in decimal as the C library writes it for CPython,
    without padding: 999 for the year 999, not 0999.  A [datetime] has a
    year from 1 to 9999. *)
Definition year_digits (n : Z) (k : string) : string :=
  if n <? 10 then String (digit n) k
  else if n <? 100 then pad2 n k
  else if n <? 1000 then String (digit (n / 100)) (pad2 (n mod 100) k)
  else pad4 n k.

(** [dt.strftime('%Y-%m-%dT%H:%M:%SZ')]. *)
Definition strftime (dt : datetime) : string :=
  year_digits (year dt) (String "-" (pad2 (month dt) (String "-"
    (pad2 (day dt) (String "T" (pad2 (hour dt) (String ":"
      (pad2 (minute dt) (String ":" (pad2 (second dt) "Z"))))))))))%char.

(** *** [strptime(s, DATE_FORMAT)]

    Python compiles the format into the regular expression
    [(\d\d\d\d)-(1[0-2]|0[1-9]|[1-9])-(3[01]|[12]\d|0[1-9]|[1-9]| [1-9])T
     (2[0-3]|[0-1]\d|\d):([0-5]\d|\d):(6[0-1]|[0-5]\d|\d)Z], matched
    case-insensitively against the whole string, and passes the numbers to
    the [datetime] constructor.  As each field is followed by a character
    that is no digit, a field is a run of one or two digits (four for the
    year); the bounds of the alternatives are within those of the
    constructor, except that the regular expression admits seconds 60 and
    61 and no month or day 0, all of which the constructor refuses as well.
    A string here is a string of ASCII characters, and for such a string
    [strptime] is what Python's is.  A string with other characters is
    refused here, while Python's digit class also matches the decimal
    digits outside ASCII: what is stated of a refused bookmark is stated of
    an ASCII one ([ascii_only]). *)

Definition digit_value (c : ascii) : option Z :=
  let n := Z.of_N (N_of_ascii c) in
  if (48 <=? n) && (n <=? 57) then Some (n - 48) else None.

(** [\d\d\d\d] *)
Definition take_year (s : string) : option (Z * string) :=
  match s with
  | String a (String b (String c (String d rest))) =>
      a ← digit_value a; b ← digit_value b;
      c ← digit_value c; d ← digit_value d;
      Some (1000 * a + 100 * b + 10 * c + d, rest)
  | _ => None
  end.

(** One or two digits. *)
Definition take_field (s : string) : option (Z * string) :=
  match s with
  | String a rest =>
      a ← digit_value a;
      match rest with
      | String b rest' =>
          match digit_value b with
          | Some b => Some (10 * a + b, rest')
          | None => Some (a, rest)
          end
      | EmptyString => Some (a, rest)
      end
  | EmptyString => None
  end.

(** The day of the month may also be a space and one digit. *)
Definition take_day (s : string) : option (Z * string) :=
  match s with
  | String " "%char (String a rest) =>
      a ← digit_value a; Some (a, rest)
  | _ => take_field s
  end.

(** A literal of the format, matched case-insensitively: [lo] is the
    lower-case form of [up] (the same character for [-] and [:]). *)
Definition expect (up lo : ascii) (s : string) : option string :=
  match s with
  | String c rest =>
      if bool_decide (c = up) || bool_decide (c = lo) then Some rest else None
  | EmptyString => None
  end.

(** [datetime.strptime(s, DATE_FORMAT)]; [None] is ValueError. *)
Definition strptime (s : string) : option datetime :=
  '(y, s) ← take_year s;
  s ← expect "-" "-" s;
  '(m, s) ← take_field s;
  s ← expect "-" "-" s;
  '(d, s) ← take_day s;
  s ← expect "T" "t" s;
  '(hh, s) ← take_field s;
  s ← expect ":" ":" s;
  '(mi, s) ← take_field s;
  s ← expect ":" ":" s;
  '(ss, s) ← take_field s;
  s ← expect "Z" "z" s;
  match s with
  | EmptyString =>
      let dt := mkdt y m d hh mi ss in
      if valid_datetime dt then Some dt else None
  | _ => None
  end.

(** The two conversions of [query_metric]: line 126 and line 173. *)
Definition parse_bookmark (s : string) : option Z :=
  timestamp <$> strptime s.

Definition format_bookmark (t : Z) : option string :=
  strftime <$> utcfromtimestamp t.

(** The instants [datetime] can hold, in whole seconds:
    0001-01-01T00:00:00Z and 9999-12-31T23:59:59Z. *)
Definition MIN_TIMESTAMP : Z := -62135596800.
Definition MAX_TIMESTAMP : Z := 253402300799.

(** 1000-01-01T00:00:00Z, the first instant of a year of four digits. *)
Definition Y1000_TIMESTAMP : Z := -30610224000.

(** The characters of [s] are ASCII. *)
Definition ascii_only (s : string) : bool :=
  forallb (λ c, (N_of_ascii c <? 128)%N) (list_ascii_of_string s).

End Calendar.


(* ===================================================================== *)
(** ** Aggregator *)
(* ===================================================================== *)

Module Aggregator.

(** *** Floating point

    A Python [float], an IEEE 754 binary64: not-a-number, an infinity, or
    a finite value, kept as the rational it denotes (so the two zeros are
    one value).  [round64] is rounding to the nearest binary64, ties to
    even: 53 bits of mantissa, exponents of the unit in the last place from
    [-1074] (subnormals) to [971], infinity beyond. *)
Inductive float := NaN | Inf (negative : bool) | Num (q : Qc).

(** The integer nearest to [n / d], ties to even ([0 <= n], [0 < d]). *)
Definition rne (n d : Z) : Z :=
  let q := n / d in
  let r := n mod d in
  match 2 * r ?= d with
  | Lt => q
  | Gt => q + 1
  | Eq => if Z.even q then q else q + 1
  end.

(** The [k] with [2 ^ k <= n / d < 2 ^ (k + 1)] ([0 < n], [0 < d]). *)
Definition ilog2 (n d : Z) : Z :=
  let k := Z.log2 n - Z.log2 d in
  if n * 2 ^ Z.max 0 (- k) <? d * 2 ^ Z.max 0 k then k - 1 else k.

Definition round_pos (n d : Z) : float :=
  let e := Z.max (ilog2 n d - 52) (-1074) in
  let m := rne (n * 2 ^ Z.max 0 (- e)) (d * 2 ^ Z.max 0 e) in
  if (971 <? e) || ((e =? 971) && (m =? 2 ^ 53)) then Inf false
  else Num (Q2Qc (m * 2 ^ Z.max 0 e # Z.to_pos (2 ^ Z.max 0 (- e)))).

Definition fneg (x : float) : float :=
  match x with
  | NaN => NaN
  | Inf s => Inf (negb s)
  | Num q => Num (- q)
  end.

Definition round64 (q : Qc) : float :=
  match Qnum q with
  | Z0 => Num 0
  | Zpos n => round_pos (Zpos n) (Zpos (Qden q))
  | Zneg n => fneg (round_pos (Zpos n) (Zpos (Qden q)))
  end.

(** [x + y]. *)
Definition fadd (x y : float) : float :=
  match x, y with
  | NaN, _ | _, NaN => NaN
  | Inf s, Inf s' => if Bool.eqb s s' then Inf s else NaN
  | Inf s, Num _ | Num _, Inf s => Inf s
  | Num a, Num b => round64 (a + b)
  end.

(** [x / count] for a count of samples, a positive whole number. *)
Definition fdiv (x : float) (count : Z) : float :=
  match x with
  | NaN => NaN
  | Inf s => Inf s
  | Num a => round64 (a / Qc_of_Z count)
  end.

(** [x <= y]; a comparison with NaN is false. *)
Definition fle (x y : float) : bool :=
  match x, y with
  | NaN, _ | _, NaN => false
  | Inf true, _ => true
  | _, Inf false => true
  | Inf false, _ => false
  | _, Inf true => false
  | Num a, Num b => match (a ?= b)%Qc with Gt => false | _ => true end
  end.

Definition fmax (x y : float) : float := if fle x y then y else x.
Definition fmin (x y : float) : float := if fle x y then x else y.

(** *** The samples

    The value of a sample as the Prometheus API gives it, the text of a
    number or of [NaN], [+Inf], [-Inf], kept as what the text denotes; and
    [astype(float)] of line 148, which rounds a number to the nearest
    float. *)
Inductive sample := SNaN | SInf (negative : bool) | SNum (q : Qc).

Definition astype_float (v : sample) : float :=
  match v with
  | SNaN => NaN
  | SInf s => Inf s
  | SNum q => round64 q
  end.

(** The exceptions a run can end with.  [Exception] carries the message
    of the two [raise Exception(...)] of the module. *)
Inductive exn :=
  | Exception (msg : string)
  | ValueError
  | TypeError
  | KeyError
  | IndexError
  | UpstreamQueryError.

(** *** The reductions of pandas

    [dataframe.max()], [dataframe.min()] and [dataframe.mean()] skip the
    samples that are NaN and return NaN when no sample is left. *)
Definition isna (x : float) : bool :=
  match x with NaN => true | _ => false end.

Definition dropna (l : list float) : list float :=
  filter (λ x, isna x = false) l.

Definition fillna (l : list float) : list float :=
  (λ x, if isna x then Num 0 else x) <$> l.

Definition df_max (l : list float) : float :=
  match dropna l with
  | [] => NaN
  | x :: xs => foldl fmax x xs
  end.

Definition df_min (l : list float) : float :=
  match dropna l with
  | [] => NaN
  | x :: xs => foldl fmin x xs
  end.

(** The sum that [mean] divides is [values.sum()] of numpy over the
    column with 0 in the place of each NaN: the pairwise summation of
    [pairwise_sum] in numpy's [loops_utils.h.src].  Fewer than 8 values are
    added in order; up to 128 values are added into 8 accumulators, value
    [i] into accumulator [i mod 8], the accumulators are added as a tree
    and the values after the last multiple of 8 are added in order; more
    values are split in two at a multiple of 8 near the middle. *)
Fixpoint every8 {A} (i : nat) (l : list A) : list A :=
  match l with
  | [] => []
  | x :: l' =>
      match i with
      | O => x :: every8 7 l'
      | S i' => every8 i' l'
      end
  end.

Definition accumulate (column : list float) : float :=
  match column with
  | x :: xs => foldl fadd x xs
  | [] => Num 0
  end.

Fixpoint pairwise_sum (fuel : nat) (a : list float) : float :=
  let n := length a in
  if (n <? 8)%nat then foldl fadd (Num 0) a
  else if (n <=? 128)%nat then
    let full := (n - n mod 8)%nat in
    let r j := accumulate (every8 j (take full a)) in
    foldl fadd
      (fadd (fadd (fadd (r 0%nat) (r 1%nat)) (fadd (r 2%nat) (r 3%nat)))
            (fadd (fadd (r 4%nat) (r 5%nat)) (fadd (r 6%nat) (r 7%nat))))
      (drop full a)
  else
    match fuel with
    | O => NaN
    | S fuel' =>
        let n2 := (n / 2)%nat in
        let n2 := (n2 - n2 mod 8)%nat in
        fadd (pairwise_sum fuel' (take n2 a)) (pairwise_sum fuel' (drop n2 a))
    end.

(** [values.sum()]: the halving of [pairwise_sum] needs no more steps
    than there are values. *)
Definition np_sum (a : list float) : float :=
  fadd (Num 0) (pairwise_sum (length a) a).

Definition df_mean (l : list float) : float :=
  let count := Z.of_nat (length (dropna l)) in
  if count =? 0 then NaN else fdiv (np_sum (fillna l)) count.

(** [aggregate(aggregation, dataframe)], lines 185-194; [dataframe] is
    the column [values]. *)
Definition aggregate (aggregation : string) (dataframe : list float)
  : exn + float :=
  if String.eqb aggregation "max" then inr (df_max dataframe)
  else if String.eqb aggregation "min" then inr (df_min dataframe)
  else if String.eqb aggregation "avg" then inr (df_mean dataframe)
  else inl (Exception ("Aggregation method not implemented: " +:+ aggregation)).

End Aggregator.

Import Calendar Aggregator.

(* ===================================================================== *)
(** ** The tap *)
(* ===================================================================== *)

Module Tap.

(** An entry of [Context.catalog['streams']].  The schema is a JSON
    document the tap only passes on; it is kept as its text. *)
Record catalog_entry := mkEntry {
  stream : string;
  tap_stream_id : string;
  schema : string;
  key_properties : list string
}.

(** An entry of [Context.config['metrics']]. *)
Record metric := mkMetric {
  name : string;
  query : string;
  aggregation : string;
  period : string;
  step : Z
}.

Record Config := mkConfig {
  endpoint : string;
  start_date : string;
  metrics : list metric
}.

(** The class attributes of [Context] that [sync] reads and writes.
    [state] is the part of the Singer state the tap uses: for each metric
    name the value stored under the key ['start_date'] of
    [state['bookmarks'][name]].  [stream_map] is a memo of [catalog] and is
    recomputed where it is read.  [clock_reads] is not an attribute of the
    class: it counts the calls of [singer.utils.now()] so far, the one piece
    of the world's state that the run changes. *)
Record Context := mkContext {
  config : Config;
  state : gmap string string;
  catalog : list catalog_entry;
  new_counts : gmap string Z;
  updated_counts : gmap string Z;
  clock_reads : nat
}.

Definition set_state (f : gmap string string → gmap string string)
    (c : Context) : Context :=
  mkContext (config c) (f (state c)) (catalog c) (new_counts c)
            (updated_counts c) (clock_reads c).

Definition set_new_counts (f : gmap string Z → gmap string Z)
    (c : Context) : Context :=
  mkContext (config c) (state c) (catalog c) (f (new_counts c))
            (updated_counts c) (clock_reads c).

Definition set_updated_counts (f : gmap string Z → gmap string Z)
    (c : Context) : Context :=
  mkContext (config c) (state c) (catalog c) (new_counts c)
            (f (updated_counts c)) (clock_reads c).

Definition tick (c : Context) : Context :=
  mkContext (config c) (state c) (catalog c) (new_counts c)
            (updated_counts c) (S (clock_reads c)).

(** What [client.range_query] answers: a failure of the transport or of
    the API, or a [PrometheusData] whose [timeseries] are lists of
    (timestamp, value) samples. *)
Inductive response :=
  | QueryFailed
  | PrometheusData (timeseries : list (list (Z * sample))).

(** The world outside the tap: the wall clock, as the instant (in
    microseconds since the epoch) that the [n]-th call of
    [singer.utils.now()] returns, and the Prometheus client. *)
Record world := mkWorld {
  clock : nat → Z;
  range_query : string → Z → Z → Z → response
}.

(** The dictionary [data] of lines 153-158, which [transformer.transform]
    shapes by the stream's schema before it is written. *)
Record record := mkRecord {
  rec_date : Z;
  rec_metric : string;
  rec_aggregation : string;
  rec_value : float
}.

(** What a run does, in order: the calls of [singer.write_schema],
    [client.range_query], [singer.write_record], [singer.write_bookmark]
    (the update of the bookmark in memory) and [singer.write_state] (the
    persist of the whole state to the sink). *)
Inductive event :=
  | WriteSchema (stream_name : string) (sch : string) (keys : list string)
  | RangeQuery (q : string) (start_ts end_ts stp : Z)
  | WriteRecord (stream_name : string) (rec : record) (time_extracted : Z)
  | WriteBookmark (metric_name : string) (value : string)
  | WriteState (st : gmap string string).

Inductive outcome (A : Type) :=
  | Returned (a : A)
  | Raised (e : exn)
  | OutOfFuel.
Arguments Returned {A} a.
Arguments Raised {A} e.
Arguments OutOfFuel {A}.

(** A computation reads and writes the context, appends to the trace and
    returns or raises. *)
Definition M (A : Type) : Type := Context → outcome A * Context * list event.

Definition ret {A} (a : A) : M A := λ c, (Returned a, c, []).

Definition bind {A B} (m : M A) (f : A → M B) : M B := λ c,
  match m c with
  | (Returned a, c1, t1) =>
      match f a c1 with (o, c2, t2) => (o, c2, t1 ++ t2) end
  | (Raised e, c1, t1) => (Raised e, c1, t1)
  | (OutOfFuel, c1, t1) => (OutOfFuel, c1, t1)
  end.

#[export] Instance M_ret : MRet M := @ret.
#[export] Instance M_bind : MBind M := λ A B f m, bind m f.

Definition get : M Context := λ c, (Returned c, c, []).
Definition modify (f : Context → Context) : M unit :=
  λ c, (Returned tt, f c, []).
Definition emit (e : event) : M unit := λ c, (Returned tt, c, [e]).
Definition raise {A} (e : exn) : M A := λ c, (Raised e, c, []).
Definition out_of_fuel {A} : M A := λ c, (OutOfFuel, c, []).

(** A value that is there, or the exception its absence raises. *)
Definition expect_some {A} (o : option A) (e : exn) : M A :=
  match o with Some a => ret a | None => raise e end.

(** [singer.utils.now()]. *)
Definition now (w : world) : M Z :=
  λ c, (Returned (clock w (clock_reads c)), tick c, []).

(** [int(extraction_time.timestamp())] for the instant [instant], in
    microseconds since the epoch: [timestamp()] is the float nearest to
    [instant / 10 ** 6] (the true division of [total_seconds()]), and [int]
    truncates it toward zero.  From 2 ** 34 seconds on (the year 2514) the
    float can be the next whole second.  An instant of a [datetime] is far
    from the floats that are no finite number. *)
Definition unixtime (instant : Z) : Z :=
  match round64 (Q2Qc (instant # 1000000)) with
  | Num q => Z.quot (Qnum q) (Zpos (Qden q))
  | _ => 0
  end.

(** [Context.get_catalog_entry]: in the dictionary comprehension a later
    stream of the same [tap_stream_id] replaces an earlier one. *)
Definition stream_map (streams : list catalog_entry)
  : gmap string catalog_entry :=
  foldl (λ m s, <[tap_stream_id s := s]> m) ∅ streams.

Definition get_catalog_entry (c : Context) (stream_name : string)
  : option catalog_entry :=
  stream_map (catalog c) !! stream_name.

(** [get_bookmark(name)], lines 197-201. *)
Definition get_bookmark (c : Context) (nm : string) : string :=
  match state c !! nm with
  | Some bookmark => bookmark
  | None => start_date (config c)
  end.

(** [Context.new_counts[stream_name]]. *)
Definition read_new_count (stream_name : string) : M Z :=
  c ← get; expect_some (new_counts c !! stream_name) KeyError.

(** [singer.write_bookmark(Context.state, name, 'start_date', value)]. *)
Definition write_bookmark (nm value : string) : M unit :=
  modify (set_state (<[nm := value]>));; emit (WriteBookmark nm value).

(** [singer.write_state(Context.state)]. *)
Definition write_state : M unit :=
  c ← get; emit (WriteState (state c)).

(** The body of the [while] loop, lines 138-178, for the window that
    starts at [iterator_unixtime]. *)
Definition process_window (w : world) (stream_name nm qry agg : string)
    (stp extraction_time period_seconds iterator_unixtime : Z) : M unit :=
  let end_ts := iterator_unixtime + period_seconds in
  emit (RangeQuery qry iterator_unixtime end_ts stp);;
  ts_data ← match range_query w qry iterator_unixtime end_ts stp with
             | QueryFailed => raise UpstreamQueryError
             | PrometheusData tss => ret tss
             end;
  ts ← expect_some (head ts_data) IndexError;
  let dataframe := astype_float <$> (snd <$> ts) in
  aggregated_value ← match aggregate agg dataframe with
                      | inl e => raise e
                      | inr v => ret v
                      end;
  let data := mkRecord iterator_unixtime nm agg aggregated_value in
  emit (WriteRecord stream_name data extraction_time);;
  count ← read_new_count stream_name;
  modify (set_new_counts (<[stream_name := count + 1]>));;
  value ← expect_some (format_bookmark end_ts) ValueError;
  write_bookmark nm value;;
  count ← read_new_count stream_name;
  if count mod 100 =? 0 then write_state else ret tt.

(** The [while] loop of lines 137-180.  [fuel] bounds the number of
    iterations; [query_metric] supplies enough of it. *)
Fixpoint window_loop (fuel : nat) (w : world)
    (stream_name nm qry agg : string)
    (stp extraction_time current_unixtime period_seconds : Z)
    (iterator_unixtime : Z) : M unit :=
  if iterator_unixtime + period_seconds <=? current_unixtime then
    match fuel with
    | O => out_of_fuel
    | S fuel' =>
        process_window w stream_name nm qry agg stp extraction_time
                       period_seconds iterator_unixtime;;
        window_loop fuel' w stream_name nm qry agg stp extraction_time
                    current_unixtime period_seconds
                    (iterator_unixtime + period_seconds)
    end
  else ret tt.

(** The number of iterations the loop can make. *)
Definition loop_fuel (bookmark_unixtime current_unixtime period_seconds : Z)
  : nat :=
  Z.to_nat ((current_unixtime - bookmark_unixtime) / period_seconds).

Definition stream_name_ : string := "aggregated_metric_history".

(** [query_metric(client, name, query, aggregation, period, step)],
    lines 119-182. *)
Definition query_metric (w : world) (nm qry agg per : string) (stp : Z)
  : M unit :=
  let stream_name := stream_name_ in
  c ← get;
  catalog_entry ← expect_some (get_catalog_entry c stream_name) TypeError;
  let stream_schema := schema catalog_entry in
  let bookmark := get_bookmark c nm in
  bookmark_unixtime ← expect_some (parse_bookmark bookmark) ValueError;
  extraction_time ← now w;
  let current_unixtime := unixtime extraction_time in
  period_seconds ←
    (if String.eqb per "day" then ret 86400
     else raise (Exception ("Period is not supported: " +:+ per)));
  window_loop (loop_fuel bookmark_unixtime current_unixtime period_seconds)
              w stream_name nm qry agg stp extraction_time
              current_unixtime period_seconds bookmark_unixtime;;
  write_state.

(** The first loop of [sync], lines 99-104. *)
Fixpoint write_schemas (streams : list catalog_entry) : M unit :=
  match streams with
  | [] => ret tt
  | catalog_entry :: rest =>
      let stream_name := tap_stream_id catalog_entry in
      emit (WriteSchema stream_name (schema catalog_entry)
                        (key_properties catalog_entry));;
      modify (set_new_counts (<[stream_name := 0]>));;
      modify (set_updated_counts (<[stream_name := 0]>));;
      write_schemas rest
  end.

(** The second loop of [sync], lines 106-116. *)
Fixpoint sync_metrics (w : world) (ms : list metric) : M unit :=
  match ms with
  | [] => ret tt
  | m :: rest =>
      query_metric w (name m) (query m) (aggregation m) (period m) (step m);;
      sync_metrics w rest
  end.

(** [sync(client)]. *)
Definition sync (w : world) : M unit :=
  c ← get;
  write_schemas (catalog c);;
  sync_metrics w (metrics (config c)).

(** The branch of [main] that syncs: [Context.tap_start] takes the first
    reading of the clock, the counters are the empty dictionaries of the
    class definition. *)
Definition main_context (cfg : Config) (st : gmap string string)
    (cat : list catalog_entry) : Context :=
  mkContext cfg st cat ∅ ∅ 1.

Definition main (w : world) (cfg : Config) (st : gmap string string)
    (cat : list catalog_entry) : outcome unit * Context * list event :=
  sync w (main_context cfg st cat).

(** [Context.print_counts]: one line per stream of [new_counts], with the
    stream's name, its count of new records and its count of updates;
    [None] is the KeyError of [Context.updated_counts[stream_name]]. *)
Definition print_counts (c : Context) : option (list (string * Z * Z)) :=
  mapM (λ '(stream_name, stream_count),
          u ← updated_counts c !! stream_name;
          Some (stream_name, stream_count, u))
       (map_to_list (new_counts c)).

(** *** Reading a trace *)

(** The window starts of the records written. *)
Definition record_dates (t : list event) : list Z :=
  omap (λ e, match e with WriteRecord _ r _ => Some (rec_date r) | _ => None end) t.

(** The extraction times of the records written. *)
Definition record_times (t : list event) : list Z :=
  omap (λ e, match e with WriteRecord _ _ x => Some x | _ => None end) t.

(** The number of persists of the state. *)
Definition is_write_state (e : event) : bool :=
  match e with WriteState _ => true | _ => false end.

Definition persist_count (t : list event) : nat :=
  length (List.filter is_write_state t).

End Tap.

Import Tap.

(* ===================================================================== *)
(** ** The catalog *)
(* ===================================================================== *)

(** [Context.get_schema(stream_name)], lines 37-40: the schema of the
    first stream of the catalog with that id; [None] is the IndexError of
    [[0]] on the empty list. *)
Definition get_schema (c : Context) (stream_name : string) : option string :=
  schema <$> head (filter (λ s, tap_stream_id s = stream_name) (catalog c)).

(** [discover()], lines 78-94, on the dictionary that [load_schemas()]
    returns, given by its items in order: a catalog entry for each schema,
    named after it. *)
Definition discover (raw_schemas : list (string * string))
  : list catalog_entry :=
  (λ '(schema_name, sch),
     mkEntry schema_name schema_name sch
             ["date"; "metric"; "aggregation"]%string) <$> raw_schemas.

(* ===================================================================== *)
(** ** Auxiliary definitions of the proofs *)
(* ===================================================================== *)

(** The last step of [ord2ymd]: the month and the day of the [n]-th day
    (from 0) of a year, leap or not. *)
Definition month_day (leapyear : bool) (n : Z) : Z * Z :=
  let m := Z.shiftr (n + 50) 5 in
  let preceding :=
    DAYS_BEFORE_MONTH m + (if (2 <? m) && leapyear then 1 else 0) in
  if n <? preceding then
    let m' := m - 1 in
    let preceding' :=
      preceding
      - (DAYS_IN_MONTH m' + (if (m' =? 2) && leapyear then 1 else 0)) in
    (m', n - preceding' + 1)
  else (m, n - preceding + 1).

(** What [month_day] has to satisfy at one day of the year. *)
Definition month_day_ok (leapyear : bool) (n : Z) : bool :=
  let '(m, d) := month_day leapyear n in
  (1 <=? m) && (m <=? 12) && (1 <=? d)
  && (d <=? (if (m =? 2) && leapyear then 29 else DAYS_IN_MONTH m))
  && (DAYS_BEFORE_MONTH m + (if (2 <? m) && leapyear then 1 else 0) + d
      =? n + 1).


Definition sumZ (l : list Z) : Z := foldr Z.add 0 l.


(** The arithmetic mean as the specification words it: the sum of all
    the values over their number. *)
Definition arithmetic_mean (l : list float) : float :=
  fdiv (foldr fadd (Num 0) l) (Z.of_nat (length l)).

(** The value [process_window] computes for the window that starts at
    [it], when the query and the aggregation succeed. *)
Definition window_value (w : world) (qry agg : string) (stp P it : Z)
  : option float :=
  match range_query w qry it (it + P) stp with
  | PrometheusData (ts :: _) =>
      match aggregate agg (astype_float <$> (snd <$> ts)) with
      | inr v => Some v
      | inl _ => None
      end
  | _ => None
  end.

(** The window starts of the queries issued. *)
Definition query_starts (t : list event) : list Z :=
  omap (λ e, match e with RangeQuery _ s _ _ => Some s | _ => None end) t.

(** The starts of [k] consecutive windows of length [P] from [it]. *)
Definition window_starts (it P : Z) (k : nat) : list Z :=
  (λ i, it + P * i) <$> seqZ 0 (Z.of_nat k).

(** What [process_window] leaves in the trace for a window it completes:
    the query, the record, the bookmark and, when the stream's counter
    reaches a multiple of 100, the persist of the state. *)
Definition window_block (stream_name nm qry agg : string)
    (stp extraction_time P it : Z) (v : float) (n : Z) (value : string)
    (st : gmap string string) : list event :=
  [RangeQuery qry it (it + P) stp;
   WriteRecord stream_name (mkRecord it nm agg v) extraction_time;
   WriteBookmark nm value]
  ++ (if (n + 1) mod 100 =? 0 then [WriteState (<[nm := value]> st)] else []).

(** [completed ... k it c t it' c']: from the context [c], the windows
    that start at [it], [it + P], ..., [k] of them, are processed without
    an exception, which writes the trace [t] and leaves the context [c']
    and the iterator at [it']. *)
Inductive completed (w : world) (stream_name nm qry agg : string)
    (stp extraction_time P : Z)
  : nat → Z → Context → list event → Z → Context → Prop :=
  | completed_nil it c :
      completed w stream_name nm qry agg stp extraction_time P
                0 it c [] it c
  | completed_step k it c v n value t it' c' :
      window_value w qry agg stp P it = Some v →
      new_counts c !! stream_name = Some n →
      format_bookmark (it + P) = Some value →
      completed w stream_name nm qry agg stp extraction_time P
                k (it + P)
                (set_state (<[nm := value]>)
                   (set_new_counts (<[stream_name := n + 1]>) c))
                t it' c' →
      completed w stream_name nm qry agg stp extraction_time P
                (S k) it c
                (window_block stream_name nm qry agg stp extraction_time
                              P it v n value (state c) ++ t)
                it' c'.

(** In the trace [t], read after the event [prev], every write of a
    bookmark comes right after the record of a window of metric [nm] and
    holds the end of that window, [P] seconds after its start. *)
Fixpoint bookmarks_follow_records (nm : string) (P : Z)
    (prev : option event) (t : list event) : Prop :=
  match t with
  | [] => True
  | e :: t' =>
      match e with
      | WriteBookmark n value =>
          match prev with
          | Some (WriteRecord _ r _) =>
              n = nm ∧ rec_metric r = nm
              ∧ format_bookmark (rec_date r + P) = Some value
          | _ => False
          end
      | _ => True
      end
      ∧ bookmarks_follow_records nm P (Some e) t'
  end.

(** For each persist of the state in [t], the number of records written
    before it, counted from [seen]. *)
Fixpoint persist_positions (seen : nat) (t : list event) : list nat :=
  match t with
  | [] => []
  | WriteRecord _ _ _ :: t' => persist_positions (S seen) t'
  | WriteState _ :: t' => seen :: persist_positions seen t'
  | _ :: t' => persist_positions seen t'
  end.

(** The states that the persists of [t] hold, in order. *)
Definition persists (t : list event) : list (gmap string string) :=
  omap (λ e, match e with WriteState st => Some st | _ => None end) t.

(** The state of a call at the end of its [j]-th window: the state [st0]
    it started from, with the bookmark of [nm] at the end of that window,
    [j] periods after the bookmark [b] the call started from. *)
Definition checkpoint_of (nm : string) (st0 : gmap string string) (b P : Z)
    (j : nat) (st : gmap string string) : Prop :=
  (j = 0%nat ∧ st = st0)
  ∨ ∃ value, format_bookmark (b + P * Z.of_nat j) = Some value
             ∧ st = <[nm := value]> st0.

(** The three parts of the result of a run. *)
Definition outcome_of {A} (r : outcome A * Context * list event) : outcome A :=
  r.1.1.
Definition context_of {A} (r : outcome A * Context * list event) : Context :=
  r.1.2.
Definition trace_of {A} (r : outcome A * Context * list event) : list event :=
  r.2.

(** The scenario of the specification: one metric, a source that answers
    every query with one series of constant value 10, a start date of
    2024-01-01 and a clock that reads 2024-01-04T00:00:00Z. *)
Definition example_catalog : list catalog_entry :=
  [mkEntry "aggregated_metric_history" "aggregated_metric_history" "{}"
           ["date"; "metric"; "aggregation"]%string].

Definition example_config : Config :=
  mkConfig "http://localhost:9090" "2024-01-01T00:00:00Z"
           [mkMetric "cpu" "cpu_usage" "avg" "day" 60].

Definition example_world : world :=
  mkWorld (λ _, 1704326400000000)
          (λ _ _ _ _, PrometheusData [[(0, SNum (Qc_of_Z 10)); (60, SNum (Qc_of_Z 10))]]).

(** A second scenario: two metrics on the one stream.  The clock reads
    2024-09-07T00:00:00Z, 250 days after the start date; the bookmark of
    [mem] is 50 days before the clock's reading, [cpu] has none. *)
Definition two_metrics_config : Config :=
  mkConfig "http://localhost:9090" "2024-01-01T00:00:00Z"
           [mkMetric "mem" "mem_usage" "max" "day" 60;
            mkMetric "cpu" "cpu_usage" "avg" "day" 60].

Definition two_metrics_state : gmap string string :=
  {[ "mem"%string := "2024-07-19T00:00:00Z"%string ]}.

Definition two_metrics_world : world :=
  mkWorld (λ _, 1725667200000000)
          (λ _ _ _ _, PrometheusData [[(0, SNum (Qc_of_Z 10)); (60, SNum (Qc_of_Z 10))]]).

(** The context in which [cpu], the second metric, starts. *)
Definition two_metrics_context : Context :=
  context_of
    (query_metric two_metrics_world "mem" "mem_usage" "max" "day" 60
       (context_of (write_schemas example_catalog
          (main_context two_metrics_config two_metrics_state
                        example_catalog)))).

(** A source that fails from 2024-01-02 on. *)
Definition failing_world : world :=
  mkWorld (λ _, 1704326400000000)
          (λ _ start_ts _ _,
             if start_ts <? 1704153600
             then PrometheusData [[(0, SNum (Qc_of_Z 10)); (60, SNum (Qc_of_Z 10))]]
             else QueryFailed).

(** The context in which the first metric of the scenario starts. *)
Definition example_context : Context :=
  context_of (write_schemas example_catalog
                (main_context example_config ∅ example_catalog)).

(** A source that has no series for any query, and one that is down. *)
Definition empty_world : world :=
  mkWorld (λ _, 1704326400000000) (λ _ _ _ _, PrometheusData []).

Definition down_world : world :=
  mkWorld (λ _, 1704326400000000) (λ _ _ _ _, QueryFailed).

(** A query of [query_metric] is for the expression and the step of the
    metric and for a window of [P] seconds. *)
Definition is_window_query (qry : string) (stp P : Z) (e : event) : Prop :=
  match e with
  | RangeQuery q start_ts end_ts st =>
      q = qry ∧ end_ts = start_ts + P ∧ st = stp
  | _ => True
  end.

(** A record of [query_metric] is written to the stream
    [aggregated_metric_history] for the metric and its aggregation, and its
    value is the aggregate of the first series that the source answers for
    the window of the record. *)
Definition is_window_record (w : world) (nm qry agg : string) (stp P : Z)
    (e : event) : Prop :=
  match e with
  | WriteRecord stream_name r _ =>
      stream_name = stream_name_
      ∧ rec_metric r = nm ∧ rec_aggregation r = agg
      ∧ ∃ ts others,
          range_query w qry (rec_date r) (rec_date r + P) stp
          = PrometheusData (ts :: others)
          ∧ aggregate agg (astype_float <$> (snd <$> ts)) = inr (rec_value r)
  | _ => True
  end.

(** The kinds of event [query_metric] leaves in the trace: it writes no
    schema, and bookmarks of its own metric only. *)
Definition is_metric_event (nm : string) (e : event) : Prop :=
  match e with
  | WriteSchema _ _ _ => False
  | WriteBookmark n _ => n = nm
  | _ => True
  end.

(** The declaration of a stream's schema. *)
Definition is_schema_event (e : event) : bool :=
  match e with WriteSchema _ _ _ => true | _ => false end.

(** *** Tactics *)

(** Case analysis on an integer of a known small range
    [lo <= x < lo + len] (once [lia] proves the bounds). *)
Ltac enumerate x lo len :=
  let H := fresh "Hmem" in
  assert (H : x ∈ seqZ lo len) by (apply elem_of_seqZ; lia);
  let l := eval vm_compute in (seqZ lo len) in
  change (x ∈ l) in H;
  repeat (apply elem_of_cons in H as [-> | H]);
  try (by apply elem_of_nil in H).

(** Running a computation of [M]: its operations are unfolded and the
    result simplified. *)
Create HintDb run.
#[global] Hint Unfold mbind M_bind bind mret M_ret ret emit get modify raise
  out_of_fuel expect_some read_new_count write_bookmark write_state now : run.

Ltac run_M := repeat progress (autounfold with run; simpl).

(* ===================================================================== *)
(** ** The calendar: conversions and their round trip *)
(* ===================================================================== *)

Section CalendarFacts.

Lemma month_day_checked (leapyear : bool) (n : Z) :
  0 <= n < 365 → month_day_ok leapyear n = true.
Proof.
  intros Hn.
  assert (Hall : forallb (month_day_ok leapyear) (seqZ 0 365) = true)
    by (destruct leapyear; vm_compute; reflexivity).
  rewrite forallb_forall in Hall. apply Hall.
  apply list_elem_of_In, elem_of_seqZ. lia.
Qed.

(** A year counted in whole 400-, 100- and 4-year cycles. *)
Lemma year_of_cycles (a b c d : Z) :
  0 <= a → 0 <= b <= 3 → 0 <= c <= 24 → 0 <= d <= 3 →
  let y := a * 400 + 1 + b * 100 + c * 4 + d in
  is_leap y = (d =? 3) && (negb (c =? 24) || (b =? 3))
  ∧ days_before_year y = 146097 * a + 36524 * b + 1461 * c + 365 * d.
Proof.
  intros Ha Hb Hc Hd y. subst y. split.
  - unfold is_leap.
    repeat match goal with
           | |- context [?x =? ?y] => destruct (Z.eqb_spec x y)
           end; simpl; try reflexivity; exfalso;
      Z.div_mod_to_equations; lia.
  - unfold days_before_year. Z.div_mod_to_equations. lia.
Qed.

(** The last day of a leap year, which [ord2ymd] treats apart. *)
Lemma year_end_of_cycles (a b c : Z) :
  0 <= a → 0 <= b <= 3 → 0 <= c <= 24 → (c = 24 → b = 3) →
  let y := a * 400 + b * 100 + c * 4 + 4 in
  is_leap y = true
  ∧ days_before_year y = 146097 * a + 36524 * b + 1461 * c + 1095.
Proof.
  intros Ha Hb Hc Hcb y. subst y. split.
  - unfold is_leap.
    repeat match goal with
           | |- context [?x =? ?y] => destruct (Z.eqb_spec x y)
           end; simpl; try reflexivity; exfalso;
      Z.div_mod_to_equations; lia.
  - unfold days_before_year. Z.div_mod_to_equations. lia.
Qed.

Lemma ord2ymd_unfold (n : Z) :
  ord2ymd n =
  let n := n - 1 in
  let n400 := n / 146097 in
  let n := n mod 146097 in
  let n100 := n / 36524 in
  let n := n mod 36524 in
  let n4 := n / 1461 in
  let n := n mod 1461 in
  let n1 := n / 365 in
  let n := n mod 365 in
  let y := n400 * 400 + 1 + n100 * 100 + n4 * 4 + n1 in
  if (n1 =? 4) || (n100 =? 4) then (y - 1, 12, 31)
  else
    let leapyear := (n1 =? 3) && (negb (n4 =? 24) || (n100 =? 3)) in
    (y, (month_day leapyear n).1, (month_day leapyear n).2).
Proof.
  unfold ord2ymd, month_day, DI400Y, DI100Y, DI4Y. cbv zeta.
  repeat case_match; reflexivity.
Qed.

(** [ord2ymd] returns a date of the calendar, and [ymd2ord] inverts it. *)
Lemma ord2ymd_spec (n : Z) :
  1 <= n <= MAXORDINAL →
  ∃ y m d, ord2ymd n = (y, m, d)
    ∧ 1 <= y <= 9999 ∧ 1 <= m <= 12 ∧ 1 <= d <= days_in_month y m
    ∧ ymd2ord y m d = n.
Proof.
  unfold MAXORDINAL. intros Hn. rewrite ord2ymd_unfold. cbv zeta.
  pose proof (Z.div_mod (n - 1) 146097 ltac:(lia)) as E400.
  pose proof (Z.mod_pos_bound (n - 1) 146097 ltac:(lia)) as B400.
  set (n400 := (n - 1) / 146097) in *.
  set (r1 := (n - 1) mod 146097) in *.
  pose proof (Z.div_mod r1 36524 ltac:(lia)) as E100.
  pose proof (Z.mod_pos_bound r1 36524 ltac:(lia)) as B100.
  set (n100 := r1 / 36524) in *. set (r2 := r1 mod 36524) in *.
  pose proof (Z.div_mod r2 1461 ltac:(lia)) as E4.
  pose proof (Z.mod_pos_bound r2 1461 ltac:(lia)) as B4.
  set (n4 := r2 / 1461) in *. set (r3 := r2 mod 1461) in *.
  pose proof (Z.div_mod r3 365 ltac:(lia)) as E1.
  pose proof (Z.mod_pos_bound r3 365 ltac:(lia)) as B1.
  set (n1 := r3 / 365) in *. set (r4 := r3 mod 365) in *.
  clearbody n400 r1 n100 r2 n4 r3 n1 r4.
  assert (0 <= n400 <= 24) by lia.
  assert (0 <= n100 <= 4) by lia.
  assert (0 <= n4 <= 24) by lia.
  assert (0 <= n1 <= 4) by lia.
  destruct (Z.eqb_spec n1 4) as [-> | Hn1];
    [| destruct (Z.eqb_spec n100 4) as [-> | Hn100]]; simpl orb; cbv iota.
  - (* 31 December of the fourth year of a 4-year cycle *)
    assert (n100 <= 3) by lia.
    destruct (year_end_of_cycles n400 n100 n4) as [Hleap Hdays];
      [lia .. |].
    eexists _, _, _. split; [reflexivity |].
    replace (n400 * 400 + 1 + n100 * 100 + n4 * 4 + 4 - 1)
      with (n400 * 400 + n100 * 100 + n4 * 4 + 4) by lia.
    unfold days_in_month, ymd2ord, days_before_month.
    rewrite Hleap, Hdays. simpl. lia.
  - (* 31 December of the last year of a 400-year cycle *)
    assert (n4 = 0 ∧ n1 = 0 ∧ r4 = 0) as (-> & -> & ->) by lia.
    destruct (year_end_of_cycles n400 3 24) as [Hleap Hdays]; [lia .. |].
    eexists _, _, _. split; [reflexivity |].
    replace (n400 * 400 + 1 + 4 * 100 + 0 * 4 + 0 - 1)
      with (n400 * 400 + 3 * 100 + 24 * 4 + 4) by lia.
    unfold days_in_month, ymd2ord, days_before_month.
    rewrite Hleap, Hdays. simpl. lia.
  - destruct (year_of_cycles n400 n100 n4 n1) as [Hleap Hdays]; [lia .. |].
    cbv zeta in Hleap, Hdays.
    set (y := n400 * 400 + 1 + n100 * 100 + n4 * 4 + n1) in *.
    set (leapyear := (n1 =? 3) && (negb (n4 =? 24) || (n100 =? 3))) in *.
    pose proof (month_day_checked leapyear r4 ltac:(lia)) as Hok.
    unfold month_day_ok in Hok.
    destruct (month_day leapyear r4) as [m d]. simpl.
    rewrite !andb_true_iff, !Z.leb_le, Z.eqb_eq in Hok.
    destruct Hok as ((((Hm1 & Hm2) & Hd1) & Hd2) & Hsum).
    eexists _, _, _. split; [reflexivity |].
    unfold days_in_month, ymd2ord, days_before_month.
    rewrite Hleap, Hdays.
    repeat split; lia.
Qed.

Lemma utcfromtimestamp_spec (t : Z) :
  MIN_TIMESTAMP <= t <= MAX_TIMESTAMP →
  ∃ dt, utcfromtimestamp t = Some dt
    ∧ valid_datetime dt = true ∧ timestamp dt = t.
Proof.
  unfold MIN_TIMESTAMP, MAX_TIMESTAMP. intros Ht.
  unfold utcfromtimestamp, EPOCH_ORDINAL, MAXORDINAL. cbv zeta.
  pose proof (Z.div_mod t 86400 ltac:(lia)) as Et.
  pose proof (Z.mod_pos_bound t 86400 ltac:(lia)) as Bt.
  set (days := t / 86400) in *. set (rem := t mod 86400) in *.
  clearbody days rem.
  destruct (ord2ymd_spec (days + 719163)) as (y & m & d & -> & Hy & Hm & Hd & Hord).
  { unfold MAXORDINAL. lia. }
  assert ((1 <=? days + 719163) && (days + 719163 <=? 3652059) = true) as ->.
  { apply andb_true_iff. split; apply Z.leb_le; lia. }
  eexists. split; [reflexivity |]. split.
  - unfold valid_datetime, MINYEAR, MAXYEAR. simpl.
    rewrite !andb_true_iff, !Z.leb_le.
    repeat split; try lia; Z.div_mod_to_equations; lia.
  - unfold timestamp, EPOCH_ORDINAL. simpl. rewrite Hord.
    Z.div_mod_to_equations. lia.
Qed.

Lemma utcfromtimestamp_range (t : Z) :
  is_Some (utcfromtimestamp t) ↔ MIN_TIMESTAMP <= t <= MAX_TIMESTAMP.
Proof.
  split.
  - unfold utcfromtimestamp, EPOCH_ORDINAL, MAXORDINAL,
      MIN_TIMESTAMP, MAX_TIMESTAMP. cbv zeta.
    destruct (Z.leb_spec 1 (t / 86400 + 719163));
      destruct (Z.leb_spec (t / 86400 + 719163) 3652059); simpl;
      intros [dt Hdt]; try discriminate.
    Z.div_mod_to_equations. lia.
  - intros Ht. destruct (utcfromtimestamp_spec t Ht) as (dt & -> & _). eauto.
Qed.

(** A valid date is no earlier than 0001-01-01T00:00:00. *)
Lemma timestamp_lower (dt : datetime) :
  valid_datetime dt = true → MIN_TIMESTAMP <= timestamp dt.
Proof.
  unfold valid_datetime, MINYEAR, MAXYEAR, MIN_TIMESTAMP.
  rewrite !andb_true_iff, !Z.leb_le. intros Hv.
  unfold timestamp, ymd2ord, days_before_year, days_before_month,
    EPOCH_ORDINAL.
  assert (0 <= DAYS_BEFORE_MONTH (month dt)).
  { enumerate (month dt) 1 12; simpl; lia. }
  destruct ((2 <? month dt) && is_leap (year dt));
    Z.div_mod_to_equations; lia.
Qed.

(** *** Digits *)

Lemma digit_value_digit (d : Z) :
  0 <= d <= 9 → digit_value (digit d) = Some d.
Proof.
  intros Hd. enumerate d 0 10; reflexivity.
Qed.

Lemma digit_not_space (d : Z) : 0 <= d <= 9 → digit d ≠ " "%char.
Proof.
  intros Hd He. pose proof (digit_value_digit d Hd) as Hv.
  rewrite He in Hv. discriminate.
Qed.

Lemma take_field_pad2 (n : Z) (k : string) :
  0 <= n <= 99 → take_field (pad2 n k) = Some (n, k).
Proof.
  intros Hn. unfold take_field, pad2.
  rewrite !digit_value_digit by (Z.div_mod_to_equations; lia).
  simpl. f_equal. f_equal. Z.div_mod_to_equations. lia.
Qed.

Lemma take_day_pad2 (n : Z) (k : string) :
  0 <= n <= 99 → take_day (pad2 n k) = Some (n, k).
Proof.
  intros Hn. rewrite <- (take_field_pad2 n k Hn). unfold take_day, pad2.
  pose proof (digit_not_space (n / 10)) as Hs.
  destruct (digit (n / 10)) as [[] [] [] [] [] [] [] []]; try reflexivity.
  exfalso. apply Hs; [Z.div_mod_to_equations; lia | reflexivity].
Qed.

Lemma take_year_pad4 (n : Z) (k : string) :
  0 <= n <= 9999 → take_year (pad4 n k) = Some (n, k).
Proof.
  intros Hn. unfold take_year, pad4.
  rewrite !digit_value_digit by (Z.div_mod_to_equations; lia).
  simpl. f_equal. f_equal. Z.div_mod_to_equations. lia.
Qed.

Lemma year_digits_long (n : Z) (k : string) :
  1000 <= n → year_digits n k = pad4 n k.
Proof.
  intros Hn. unfold year_digits.
  destruct (Z.ltb_spec n 10); [lia |].
  destruct (Z.ltb_spec n 100); [lia |].
  destruct (Z.ltb_spec n 1000); [lia | done].
Qed.

(** A year of fewer than four digits is no [\d\d\d\d]: the hyphen that
    follows it is among the first four characters. *)
Lemma take_year_short (n : Z) (k : string) :
  0 <= n < 1000 → take_year (year_digits n (String "-" k)) = None.
Proof.
  intros Hn. unfold year_digits, pad2.
  destruct (Z.ltb_spec n 10); [| destruct (Z.ltb_spec n 100);
    [| destruct (Z.ltb_spec n 1000); [| lia]]].
  - destruct k as [| c1 [| c2 k]]; simpl; try done.
    by rewrite digit_value_digit by lia.
  - destruct k as [| c1 k]; simpl; try done.
    by rewrite !digit_value_digit by (Z.div_mod_to_equations; lia).
  - simpl. by rewrite !digit_value_digit by (Z.div_mod_to_equations; lia).
Qed.

Lemma expect_hit (up lo : ascii) (k : string) :
  expect up lo (String up k) = Some k.
Proof. unfold expect. by rewrite bool_decide_eq_true_2. Qed.

(** *** The round trip of a bookmark *)

Local Arguments expect : simpl never.
Local Arguments take_field : simpl never.
Local Arguments take_day : simpl never.
Local Arguments pad2 : simpl never.
Local Arguments valid_datetime : simpl never.

Lemma strptime_strftime (dt : datetime) :
  valid_datetime dt = true → 1000 <= year dt →
  strptime (strftime dt) = Some dt.
Proof.
  intros Hv Hy. pose proof Hv as Hv'.
  unfold valid_datetime, MINYEAR, MAXYEAR in Hv'.
  rewrite !andb_true_iff, !Z.leb_le in Hv'.
  assert (day dt <= 31).
  { assert (days_in_month (year dt) (month dt) <= 31); [| lia].
    unfold days_in_month.
    enumerate (month dt) 1 12; simpl; try case_match; lia. }
  unfold strptime, strftime. rewrite year_digits_long by done.
  rewrite take_year_pad4 by lia. simpl. rewrite ?expect_hit. simpl.
  rewrite take_field_pad2 by lia. simpl. rewrite ?expect_hit. simpl.
  rewrite take_day_pad2 by lia. simpl. rewrite ?expect_hit. simpl.
  rewrite take_field_pad2 by lia. simpl. rewrite ?expect_hit. simpl.
  rewrite take_field_pad2 by lia. simpl. rewrite ?expect_hit. simpl.
  rewrite take_field_pad2 by lia. simpl. rewrite ?expect_hit. simpl.
  destruct dt. simpl in *. by rewrite Hv.
Qed.

(** What [strftime] writes for a year before 1000, [strptime] refuses. *)
Lemma strptime_strftime_short (dt : datetime) :
  valid_datetime dt = true → year dt < 1000 → strptime (strftime dt) = None.
Proof.
  intros Hv Hy.
  unfold valid_datetime, MINYEAR, MAXYEAR in Hv.
  rewrite !andb_true_iff, !Z.leb_le in Hv.
  unfold strptime, strftime. by rewrite take_year_short by lia.
Qed.

Lemma strptime_valid (s : string) (dt : datetime) :
  strptime s = Some dt → valid_datetime dt = true.
Proof.
  unfold strptime. intros H.
  repeat match type of H with
         | (?m ≫= _) = Some _ =>
             destruct m as [? |]; simpl in H; [| discriminate];
             try match goal with p : (_ * _)%type |- _ => destruct p end
         end.
  repeat case_match; simplify_eq. done.
Qed.

(** The years of four digits are the instants from [Y1000_TIMESTAMP]. *)
Lemma timestamp_year (dt : datetime) :
  valid_datetime dt = true →
  (1000 <= year dt ↔ Y1000_TIMESTAMP <= timestamp dt).
Proof.
  unfold valid_datetime, MINYEAR, MAXYEAR, Y1000_TIMESTAMP.
  rewrite !andb_true_iff, !Z.leb_le. intros Hv.
  unfold timestamp, ymd2ord, days_before_year, days_before_month,
    EPOCH_ORDINAL.
  assert (Hd : day dt <= days_in_month (year dt) (month dt)) by tauto.
  unfold days_in_month in Hd.
  assert (Hleap : is_leap (year dt) = true → year dt mod 4 = 0).
  { unfold is_leap. rewrite andb_true_iff, Z.eqb_eq. tauto. }
  assert (Hm : 1 <= month dt <= 12) by tauto.
  remember (month dt) as m eqn:Em. clear Em.
  destruct (is_leap (year dt)); [specialize (Hleap eq_refl) |];
    enumerate m 1 12; simpl in Hd |- *;
    Z.div_mod_to_equations; lia.
Qed.

(** What [strftime] writes for a bookmark, [strptime] reads back, from
    the year 1000 on; it refuses what is written for an earlier year. *)
Lemma parse_format_bookmark (t : Z) (s : string) :
  Y1000_TIMESTAMP <= t →
  format_bookmark t = Some s → parse_bookmark s = Some t.
Proof.
  unfold format_bookmark, parse_bookmark. intros Hy Hf.
  destruct (utcfromtimestamp t) as [dt |] eqn:Hdt; [| discriminate].
  simpl in Hf. injection Hf as <-.
  destruct (utcfromtimestamp_spec t) as (dt' & Hdt' & Hv & Ht).
  { apply utcfromtimestamp_range. rewrite Hdt. eauto. }
  rewrite Hdt in Hdt'. injection Hdt' as <-.
  rewrite (strptime_strftime dt Hv); [simpl; by rewrite Ht |].
  apply timestamp_year; [done | lia].
Qed.

Lemma parse_format_bookmark_short (t : Z) (s : string) :
  t < Y1000_TIMESTAMP →
  format_bookmark t = Some s → parse_bookmark s = None.
Proof.
  unfold format_bookmark, parse_bookmark. intros Hy Hf.
  destruct (utcfromtimestamp t) as [dt |] eqn:Hdt; [| discriminate].
  simpl in Hf. injection Hf as <-.
  destruct (utcfromtimestamp_spec t) as (dt' & Hdt' & Hv & Ht).
  { apply utcfromtimestamp_range. rewrite Hdt. eauto. }
  rewrite Hdt in Hdt'. injection Hdt' as <-.
  rewrite (strptime_strftime_short dt Hv); [done |].
  destruct (Z.lt_ge_cases (year dt) 1000) as [| Hge]; [done |].
  apply (timestamp_year dt Hv) in Hge. lia.
Qed.

(** A bookmark that was written and is read is read as the instant it
    was written for. *)
Lemma parse_of_format (t T : Z) (s : string) :
  format_bookmark t = Some s → parse_bookmark s = Some T →
  T = t ∧ Y1000_TIMESTAMP <= t.
Proof.
  intros Hf Hp. destruct (Z.lt_ge_cases t Y1000_TIMESTAMP) as [Hlt | Hge].
  - rewrite (parse_format_bookmark_short t s Hlt Hf) in Hp. discriminate.
  - rewrite (parse_format_bookmark t s Hge Hf) in Hp. by injection Hp as <-.
Qed.

Lemma format_bookmark_is_Some (t : Z) :
  is_Some (format_bookmark t) ↔ MIN_TIMESTAMP <= t <= MAX_TIMESTAMP.
Proof.
  unfold format_bookmark. rewrite fmap_is_Some. apply utcfromtimestamp_range.
Qed.

Lemma parse_bookmark_lower (s : string) (t : Z) :
  parse_bookmark s = Some t → MIN_TIMESTAMP <= t.
Proof.
  unfold parse_bookmark. intros H.
  destruct (strptime s) as [dt |] eqn:Hdt; [| discriminate].
  simpl in H. injection H as <-.
  eauto using timestamp_lower, strptime_valid.
Qed.




End CalendarFacts.

(* ===================================================================== *)
(** ** One window *)
(* ===================================================================== *)

#[global] Arguments format_bookmark : simpl never.
#[global] Arguments parse_bookmark : simpl never.
#[global] Arguments aggregate : simpl never.
#[global] Arguments Z.add : simpl never.
#[global] Arguments Z.mul : simpl never.
#[global] Arguments Z.modulo : simpl never.
#[global] Arguments Z.div : simpl never.
#[global] Arguments Z.quot : simpl never.

Section Window.

Context (w : world) (stream_name nm qry agg : string).
Context (stp extraction_time : Z).


(** All the ways [process_window] can end. *)
Lemma process_window_cases (P it : Z) (c : Context) :
  let rq := RangeQuery qry it (it + P) stp in
  let pw := process_window w stream_name nm qry agg stp extraction_time
                           P it c in
  (window_value w qry agg stp P it = None
   ∧ ∃ e, pw = (Raised e, c, [rq]))
  ∨ (∃ v, window_value w qry agg stp P it = Some v ∧
      let wr := WriteRecord stream_name (mkRecord it nm agg v)
                            extraction_time in
      (∃ e c1, pw = (Raised e, c1, [rq; wr])
          ∧ (new_counts c !! stream_name = None
             ∨ format_bookmark (it + P) = None)
          ∧ config c1 = config c ∧ catalog c1 = catalog c
          ∧ state c1 = state c ∧ updated_counts c1 = updated_counts c
          ∧ clock_reads c1 = clock_reads c
          ∧ ∀ s, is_Some (new_counts c1 !! s) ↔ is_Some (new_counts c !! s))
      ∨ (∃ n value,
          new_counts c !! stream_name = Some n
          ∧ format_bookmark (it + P) = Some value
          ∧ pw = (Returned tt,
                  set_state (<[nm := value]>)
                    (set_new_counts (<[stream_name := n + 1]>) c),
                  [rq; wr; WriteBookmark nm value]
                  ++ (if (n + 1) mod 100 =? 0
                      then [WriteState (<[nm := value]> (state c))]
                      else [])))).
Proof.
  intros rq pw. subst rq pw. unfold process_window, window_value.
  destruct (range_query w qry it (it + P) stp) as [| [| ts tss]].
  - left. split; [done |]. eexists. by run_M.
  - left. split; [done |]. eexists. by run_M.
  - destruct (aggregate agg (astype_float <$> (snd <$> ts))) as [e | v] eqn:Hagg.
    + left. split; [done |]. eexists. run_M. rewrite Hagg. by run_M.
    + right. exists v. split; [done |]. cbv zeta.
      destruct (new_counts c !! stream_name) as [n |] eqn:Hn.
      * destruct (format_bookmark (it + P)) as [value |] eqn:Hf.
        -- right. exists n, value. do 2 (split; [done |]).
           run_M. rewrite Hagg. run_M. rewrite Hn. run_M.
           rewrite lookup_insert_eq. run_M.
           by destruct ((n + 1) mod 100 =? 0).
        -- left. eexists _, _. split; [| split; [by right |]].
           { run_M. rewrite Hagg. run_M. rewrite Hn. by run_M. }
           simpl. do 5 (split; [done |]). intros s.
           destruct (decide (stream_name = s)) as [<- |].
           ++ rewrite lookup_insert_eq, Hn. split; intros _; by eexists.
           ++ by rewrite lookup_insert_ne.
      * left. eexists _, _. split; [| split; [by left |]].
        { run_M. rewrite Hagg. run_M. rewrite Hn. by run_M. }
        done.
Qed.

(** A window that raises has issued its query and has written at most
    its record; it leaves the bookmarks as they were. *)
Lemma process_window_raised (P it : Z) (c c' : Context) e tail :
  process_window w stream_name nm qry agg stp extraction_time P it c
  = (Raised e, c', tail) →
  query_starts tail = [it]
  ∧ (record_dates tail = [] ∧ record_times tail = []
     ∨ record_dates tail = [it] ∧ record_times tail = [extraction_time])
  ∧ (∃ rest, tail = RangeQuery qry it (it + P) stp :: rest)
  ∧ (is_Some (new_counts c !! stream_name) →
     is_Some (format_bookmark (it + P)) → record_dates tail = [])
  ∧ persist_count tail = 0%nat
  ∧ (∀ prev, bookmarks_follow_records nm P prev tail)
  ∧ config c' = config c ∧ catalog c' = catalog c ∧ state c' = state c
  ∧ updated_counts c' = updated_counts c ∧ clock_reads c' = clock_reads c
  ∧ (∀ s, is_Some (new_counts c' !! s) ↔ is_Some (new_counts c !! s))
  ∧ (window_value w qry agg stp P it = None
     ∨ new_counts c !! stream_name = None
     ∨ format_bookmark (it + P) = None).
Proof.
  intros Hb.
  destruct (process_window_cases P it c)
    as [(Hv & e' & Hb')
       | (v & Hv & [(e' & c1 & Hb' & Hwhy & Hcfg & Hcat & Hst & Hup & Hck & Hn)
                   | (n & value & Hn & Hf & Hb')])];
    rewrite Hb' in Hb; [| | done].
  - injection Hb as <- <- <-. split_and!; eauto; done.
  - injection Hb as <- <- <-. split_and!; eauto; try apply Hn; try done.
    intros [n' Hn'] [value Hf]. destruct Hwhy; congruence.
Qed.

(** A window that raises has written its query, and its record at most. *)
Lemma process_window_raised_tail (P it : Z) (c c' : Context) e tail :
  process_window w stream_name nm qry agg stp extraction_time P it c
  = (Raised e, c', tail) →
  tail = [RangeQuery qry it (it + P) stp]
  ∨ ∃ v, tail = [RangeQuery qry it (it + P) stp;
                 WriteRecord stream_name (mkRecord it nm agg v)
                             extraction_time].
Proof.
  intros Hb.
  destruct (process_window_cases P it c)
    as [(Hv & e' & Hb')
       | (v & Hv & [(e' & c1 & Hb' & _) | (n & value & Hn & Hf & Hb')])];
    rewrite Hb' in Hb; [| | done]; injection Hb as <- <- <-; eauto.
Qed.

End Window.

(* ===================================================================== *)
(** ** The window loop *)
(* ===================================================================== *)

#[global] Arguments process_window : simpl never.

Section Loop.

Context (w : world) (stream_name nm qry agg : string).
Context (stp extraction_time current_unixtime P : Z).

Local Abbreviation loop fuel :=
  (window_loop fuel w stream_name nm qry agg stp extraction_time
               current_unixtime P).
Local Abbreviation body :=
  (process_window w stream_name nm qry agg stp extraction_time P).
Local Abbreviation done_ :=
  (completed w stream_name nm qry agg stp extraction_time P).

Lemma window_loop_stop (fuel : nat) (it : Z) (c : Context) :
  current_unixtime < it + P → loop fuel it c = (Returned tt, c, []).
Proof.
  intros H. destruct fuel; simpl;
    by destruct (Z.leb_spec (it + P) current_unixtime); [lia |].
Qed.

Lemma window_loop_step (fuel : nat) (it : Z) (c : Context) :
  it + P <= current_unixtime →
  loop (S fuel) it c =
  match body it c with
  | (Returned _, c1, t1) =>
      match loop fuel (it + P) c1 with (o, c2, t2) => (o, c2, t1 ++ t2) end
  | (Raised e, c1, t1) => (Raised e, c1, t1)
  | (OutOfFuel, c1, t1) => (OutOfFuel, c1, t1)
  end.
Proof.
  intros H. simpl.
  destruct (Z.leb_spec (it + P) current_unixtime); [| lia]. reflexivity.
Qed.

Lemma completed_app (k1 k2 : nat) (it1 it2 it3 : Z) (c1 c2 c3 : Context)
    (t1 t2 : list event) :
  done_ k1 it1 c1 t1 it2 c2 → done_ k2 it2 c2 t2 it3 c3 →
  done_ (k1 + k2) it1 c1 (t1 ++ t2) it3 c3.
Proof.
  induction 1 as [| k it c v n value t it' c' Hv Hn Hf _ IH]; intros H2;
    [done |].
  simpl. rewrite <- app_assoc. econstructor; eauto.
Qed.

(** With enough fuel the loop ends, either after the last window that
    fits before [current_unixtime] or with the exception of a window. *)
Lemma window_loop_spec (fuel : nat) (it : Z) (c : Context) o c' t :
  0 < P → (current_unixtime - it) / P <= Z.of_nat fuel →
  loop fuel it c = (o, c', t) →
  ∃ k it' c1 t1 tail,
    t = t1 ++ tail ∧ done_ k it c t1 it' c1
    ∧ (k ≠ 0%nat → it' <= current_unixtime)
    ∧ ((o = Returned tt ∧ tail = [] ∧ c' = c1
        ∧ current_unixtime < it' + P)
       ∨ (∃ e, o = Raised e ∧ it' + P <= current_unixtime
               ∧ body it' c1 = (Raised e, c', tail))).
Proof.
  intros HP. revert it c o c' t.
  induction fuel as [| fuel IH]; intros it c o c' t Hfuel Hrun.
  - assert (current_unixtime < it + P).
    { destruct (Z.lt_ge_cases current_unixtime (it + P)); [done |].
      assert (1 <= (current_unixtime - it) / P); [| lia].
      apply Z.div_le_lower_bound; lia. }
    rewrite window_loop_stop in Hrun by done. injection Hrun as <- <- <-.
    exists 0%nat, it, c, [], []. split; [done |].
    split; [constructor |]. split; [done |]. left. done.
  - destruct (Z.lt_ge_cases current_unixtime (it + P)) as [Hstop | Hgo].
    { rewrite window_loop_stop in Hrun by done. injection Hrun as <- <- <-.
      exists 0%nat, it, c, [], []. split; [done |].
      split; [constructor |]. split; [done |]. left. done. }
    rewrite window_loop_step in Hrun by done.
    destruct (process_window_cases w stream_name nm qry agg stp
                extraction_time P it c)
      as [(Hv & e & Hb) | (v & Hv & [(e & c1 & Hb & Hwhy & _)
                                     | (n & value & Hn & Hf & Hb)])];
      rewrite Hb in Hrun.
    + injection Hrun as <- <- <-. eexists 0%nat, it, c, [], _.
      split; [done |]. split; [constructor |]. split; [done |].
      right. eauto.
    + injection Hrun as <- <- <-. eexists 0%nat, it, c, [], _.
      split; [done |]. split; [constructor |]. split; [done |].
      right. eauto.
    + destruct (loop fuel (it + P) _) as [[o2 c2] t2] eqn:Hrest.
      injection Hrun as <- <- <-.
      apply IH in Hrest
          as (k & it' & c1 & t1 & tail & -> & Hdone & Hle & Hend).
      * exists (S k), it', c1, (window_block stream_name nm qry agg stp
                 extraction_time P it v n value (state c) ++ t1), tail.
        split; [by rewrite <- app_assoc |].
        split; [by econstructor |]. split; [| done].
        intros _. destruct k as [| k]; [| by apply Hle].
        inversion Hdone; subst. done.
      * replace (current_unixtime - (it + P))
          with (current_unixtime - it + (-1) * P) by lia.
        rewrite Z.div_add by lia. lia.
Qed.

Lemma window_starts_S (it : Z) (k : nat) :
  window_starts it P (S k) = it :: window_starts (it + P) P k.
Proof.
  unfold window_starts.
  rewrite Nat2Z.inj_succ, <- Z.add_1_l, seqZ_cons by lia. simpl.
  rewrite Z.mul_0_r, Z.add_0_r. f_equal.
  replace (Z.pred (1 + Z.of_nat k)) with (Z.of_nat k) by lia.
  change (Z.succ 0) with (1 + 0).
  rewrite <- fmap_add_seqZ, <- list_fmap_compose.
  apply list_fmap_ext. intros _ i _. simpl. lia.
Qed.

Lemma persist_count_app (t1 t2 : list event) :
  persist_count (t1 ++ t2) = (persist_count t1 + persist_count t2)%nat.
Proof. unfold persist_count. by rewrite List.filter_app, length_app. Qed.

Lemma window_block_reads (it : Z) (v : float) (n : Z) (value : string)
    (st : gmap string string) (t : list event) :
  let b := window_block stream_name nm qry agg stp extraction_time
                        P it v n value st in
  record_dates (b ++ t) = it :: record_dates t
  ∧ query_starts (b ++ t) = it :: query_starts t
  ∧ record_times (b ++ t) = extraction_time :: record_times t
  ∧ persist_count (b ++ t)
    = ((if ((n + 1) mod 100 =? 0)%Z then 1 else 0) + persist_count t)%nat.
Proof.
  unfold window_block, record_dates, query_starts, record_times.
  rewrite persist_count_app.
  by destruct ((n + 1) mod 100 =? 0).
Qed.

(** The windows of a completed stretch are consecutive, and each record
    carries the extraction time. *)
Lemma completed_windows (k : nat) (it it' : Z) (c c' : Context) t :
  done_ k it c t it' c' →
  it' = it + P * Z.of_nat k
  ∧ record_dates t = window_starts it P k
  ∧ query_starts t = window_starts it P k
  ∧ record_times t = replicate k extraction_time.
Proof.
  induction 1 as [| k it c v n value t it' c' Hv Hn Hf _ IH].
  - repeat split; try done. lia.
  - destruct IH as (-> & IHd & IHq & IHt).
    destruct (window_block_reads it v n value (state c) t)
      as (-> & -> & -> & _).
    rewrite window_starts_S, IHd, IHq, IHt. repeat split; try done. lia.
Qed.

(** A completed stretch changes the bookmark of [nm] and the counter of
    [stream_name], and nothing else. *)
Lemma completed_context (k : nat) (it it' : Z) (c c' : Context) t :
  done_ k it c t it' c' →
  config c' = config c ∧ catalog c' = catalog c
  ∧ updated_counts c' = updated_counts c ∧ clock_reads c' = clock_reads c
  ∧ (∀ n, new_counts c !! stream_name = Some n →
          new_counts c' !! stream_name = Some (n + Z.of_nat k))
  ∧ (∀ s, s ≠ stream_name → new_counts c' !! s = new_counts c !! s)
  ∧ (∀ s, is_Some (new_counts c' !! s) ↔ is_Some (new_counts c !! s))
  ∧ (∀ m, m ≠ nm → state c' !! m = state c !! m)
  ∧ (k = 0%nat → state c' = state c)
  ∧ (k ≠ 0%nat → ∃ value, format_bookmark it' = Some value
                          ∧ state c' = <[nm := value]> (state c)).
Proof.
  induction 1 as [| k it c v n value t it' c' Hv Hn Hf Hrest IH].
  - repeat split; try done. intros n ->. f_equal. lia.
  - destruct IH as (-> & -> & -> & -> & IHn & IHo & IHi & IHs & IH0 & IHk).
    simpl in *. do 4 (split; [done |]).
    split; [| split; [| split; [| split; [| split]]]].
    + intros n' Hn'. rewrite Hn' in Hn. injection Hn as <-.
      rewrite (IHn (n' + 1)) by apply lookup_insert_eq. f_equal. lia.
    + intros s Hs. rewrite IHo by done. by rewrite lookup_insert_ne.
    + intros s. rewrite IHi.
      destruct (decide (stream_name = s)) as [<- |].
      * rewrite lookup_insert_eq, Hn. split; intros _; by eexists.
      * by rewrite lookup_insert_ne.
    + intros m Hm. rewrite IHs by done. by rewrite lookup_insert_ne.
    + done.
    + intros _. destruct k as [| k].
      * rewrite IH0 by done. inversion Hrest; subst. eauto.
      * destruct IHk as (value' & Hf' & ->); [done |].
        exists value'. by rewrite insert_insert_eq.
Qed.

(** The persists inside a completed stretch: one each time the counter of
    the stream, [n] before the stretch, reaches a multiple of 100. *)
Lemma completed_persists (k : nat) (it it' : Z) (c c' : Context) t n :
  done_ k it c t it' c' → new_counts c !! stream_name = Some n →
  Z.of_nat (persist_count t) = (n + Z.of_nat k) / 100 - n / 100.
Proof.
  intros Hdone. revert n.
  induction Hdone as [| k it c v n value t it' c' Hv Hn Hf _ IH];
    intros n0 Hn0.
  - unfold persist_count. simpl. rewrite Z.add_0_r. lia.
  - rewrite Hn in Hn0. injection Hn0 as <-.
    destruct (window_block_reads it v n value (state c) t)
      as (_ & _ & _ & ->).
    rewrite Nat2Z.inj_add, (IH (n + 1)) by apply lookup_insert_eq.
    replace (n + 1 + Z.of_nat k) with (n + Z.of_nat (S k)) by lia.
    destruct (Z.eqb_spec ((n + 1) mod 100) 0) as [Hz | Hz]; simpl;
      Z.div_mod_to_equations; lia.
Qed.

(** In a completed stretch the bookmark is written right after the record
    of its window, with the end of that window. *)
Lemma completed_order (k : nat) (it it' : Z) (c c' : Context) t prev :
  done_ k it c t it' c' → bookmarks_follow_records nm P prev t.
Proof.
  intros Hdone. revert prev.
  induction Hdone as [| k it c v n value t it' c' Hv Hn Hf _ IH];
    intros prev; [done |].
  unfold window_block. simpl. repeat split; try done.
  destruct ((n + 1) mod 100 =? 0); simpl; auto.
Qed.

Lemma persist_positions_app (seen : nat) (t1 t2 : list event) :
  persist_positions seen (t1 ++ t2)
  = persist_positions seen t1
    ++ persist_positions (seen + length (record_dates t1)) t2.
Proof.
  revert seen. induction t1 as [| e t1 IH]; intros seen; simpl.
  - by rewrite Nat.add_0_r.
  - destruct e; simpl; rewrite IH; try done.
    f_equal. f_equal. unfold record_dates. simpl. lia.
Qed.

(** The persists inside a completed stretch come right after the records
    that bring the counter of the stream to a multiple of 100. *)
Lemma completed_positions (k : nat) (it it' : Z) (c c' : Context) t n seen :
  done_ k it c t it' c' → new_counts c !! stream_name = Some n →
  persist_positions seen t
  = filter (λ j : nat, (n + (Z.of_nat j - Z.of_nat seen)) mod 100 = 0)
           (seq (S seen) k).
Proof.
  intros Hdone. revert n seen.
  induction Hdone as [| k it c v n value t it' c' Hv Hn Hf _ IH];
    intros n0 seen Hn0; [done |].
  rewrite Hn in Hn0. injection Hn0 as <-.
  rewrite persist_positions_app.
  rewrite (IH (n + 1) _) by apply lookup_insert_eq.
  unfold window_block. simpl seq. rewrite filter_cons.
  replace (n + (Z.of_nat (S seen) - Z.of_nat seen)) with (n + 1) by lia.
  assert (Hrest :
    filter (λ j : nat, (n + 1 + (Z.of_nat j - Z.of_nat (S seen))) mod 100 = 0)
           (seq (S (S seen)) k)
    = filter (λ j : nat, (n + (Z.of_nat j - Z.of_nat seen)) mod 100 = 0)
             (seq (S (S seen)) k)).
  { apply list_filter_iff. intros j.
    by replace (n + 1 + (Z.of_nat j - Z.of_nat (S seen)))
      with (n + (Z.of_nat j - Z.of_nat seen)) by lia. }
  destruct (Z.eqb_spec ((n + 1) mod 100) 0) as [Hz | Hz].
  - rewrite decide_True by done. simpl.
    replace (seen + 1)%nat with (S seen) by lia. by rewrite Hrest.
  - rewrite decide_False by done. simpl.
    replace (seen + 1)%nat with (S seen) by lia. by rewrite Hrest.
Qed.

Lemma persists_app (t1 t2 : list event) :
  persists (t1 ++ t2) = persists t1 ++ persists t2.
Proof. apply omap_app. Qed.

(** Each persist inside a completed stretch holds the state of the call
    at the end of the window whose record precedes it. *)
Lemma completed_persist_states (k : nat) (it it' : Z) (c c' : Context) t
    (seen : nat) :
  done_ k it c t it' c' →
  Forall2 (λ j st, ∃ value,
             format_bookmark (it + P * (Z.of_nat j - Z.of_nat seen))
             = Some value
             ∧ st = <[nm := value]> (state c))
          (persist_positions seen t) (persists t).
Proof.
  intros Hdone. revert seen.
  induction Hdone as [| k it c v n value t it' c' Hv Hn Hf _ IH];
    intros seen; [constructor |].
  rewrite persist_positions_app, persists_app.
  apply Forall2_app.
  - unfold window_block. simpl.
    destruct ((n + 1) mod 100 =? 0); simpl; constructor; [| constructor].
    exists value. split; [| done].
    by replace (it + P * (Z.of_nat (S seen) - Z.of_nat seen)) with (it + P)
      by lia.
  - assert (Hlen : length (record_dates
                     (window_block stream_name nm qry agg stp
                        extraction_time P it v n value (state c))) = 1%nat).
    { unfold window_block, record_dates.
      by destruct ((n + 1) mod 100 =? 0). }
    rewrite Hlen. eapply Forall2_impl; [| exact (IH (seen + 1)%nat)].
    intros j st (value' & Hf' & ->). exists value'. simpl. split.
    + rewrite <- Hf'. f_equal. lia.
    + by rewrite insert_insert_eq.
Qed.

End Loop.

(* ===================================================================== *)
(** ** Sequences of windows *)
(* ===================================================================== *)

Section Windows.

Lemma window_starts_NoDup (it P : Z) (k : nat) :
  P ≠ 0 → NoDup (window_starts it P k).
Proof.
  intros HP. unfold window_starts. apply NoDup_fmap_2_strong.
  - intros i j _ _ Hij. nia.
  - apply NoDup_seqZ.
Qed.

Lemma bookmarks_follow_records_app (nm : string) (P : Z) prev t1 t2 :
  bookmarks_follow_records nm P prev t1 →
  (∀ p, bookmarks_follow_records nm P p t2) →
  bookmarks_follow_records nm P prev (t1 ++ t2).
Proof.
  intros H1 H2. revert prev H1.
  induction t1 as [| e t1 IH]; intros prev H1; simpl; [done |].
  destruct H1 as [He H1]. split; [done |]. by apply IH.
Qed.

Lemma window_starts_app (it P : Z) (k1 k2 : nat) :
  window_starts it P (k1 + k2)
  = window_starts it P k1 ++ window_starts (it + P * Z.of_nat k1) P k2.
Proof.
  revert it. induction k1 as [| k1 IH]; intros it.
  - simpl. by rewrite Z.mul_0_r, Z.add_0_r.
  - rewrite Nat.add_succ_l, !window_starts_S, IH. simpl. do 3 f_equal. lia.
Qed.

Lemma window_starts_snoc (it P : Z) (k : nat) :
  window_starts it P (S k) = window_starts it P k ++ [it + P * Z.of_nat k].
Proof.
  replace (S k) with (k + 1)%nat by lia. rewrite window_starts_app.
  f_equal. unfold window_starts. simpl. f_equal. lia.
Qed.

Lemma window_starts_length (it P : Z) (k : nat) :
  length (window_starts it P k) = k.
Proof.
  unfold window_starts. by rewrite length_fmap, length_seqZ, Nat2Z.id.
Qed.

Lemma window_starts_bound (it P cur : Z) (k : nat) :
  0 < P → (k ≠ 0%nat → it + P * Z.of_nat k <= cur) →
  Forall (λ s, s + P <= cur) (window_starts it P k).
Proof.
  intros HP Hk. unfold window_starts. apply Forall_fmap, Forall_seqZ.
  intros i Hi. simpl. destruct k as [| k]; [lia |].
  specialize (Hk ltac:(done)). nia.
Qed.

End Windows.

(* ===================================================================== *)
(** ** One metric *)
(* ===================================================================== *)

#[global] Arguments window_loop : simpl never.
#[global] Arguments get_bookmark : simpl never.
#[global] Arguments get_catalog_entry : simpl never.
#[global] Arguments unixtime : simpl never.
#[global] Arguments tick : simpl never.
#[global] Arguments loop_fuel : simpl never.

Section Metric.

Context (w : world) (nm qry agg : string) (stp : Z).

(** All the ways [query_metric] can end: without the stream in the
    catalog, on a bookmark that is no date, on a period other than
    ['day'], or after the loop. *)
Lemma query_metric_cases (per : string) (c : Context) o c' t :
  query_metric w nm qry agg per stp c = (o, c', t) →
  let extraction_time := clock w (clock_reads c) in
  (get_catalog_entry c stream_name_ = None
   ∧ o = Raised TypeError ∧ c' = c ∧ t = [])
  ∨ (is_Some (get_catalog_entry c stream_name_)
     ∧ parse_bookmark (get_bookmark c nm) = None
     ∧ o = Raised ValueError ∧ c' = c ∧ t = [])
  ∨ (is_Some (get_catalog_entry c stream_name_)
     ∧ is_Some (parse_bookmark (get_bookmark c nm))
     ∧ per ≠ "day"
     ∧ o = Raised (Exception ("Period is not supported: " +:+ per))
     ∧ c' = tick c ∧ t = [])
  ∨ (is_Some (get_catalog_entry c stream_name_)
     ∧ per = "day"
     ∧ ∃ b k it' c1 t1 tail,
         parse_bookmark (get_bookmark c nm) = Some b
         ∧ t = t1 ++ tail
         ∧ completed w stream_name_ nm qry agg stp extraction_time 86400
                     k b (tick c) t1 it' c1
         ∧ (k ≠ 0%nat → it' <= unixtime extraction_time)
         ∧ ((o = Returned tt ∧ tail = [WriteState (state c1)] ∧ c' = c1
             ∧ unixtime extraction_time < it' + 86400)
            ∨ (∃ e, o = Raised e
                 ∧ it' + 86400 <= unixtime extraction_time
                 ∧ process_window w stream_name_ nm qry agg stp
                     extraction_time 86400 it' c1 = (Raised e, c', tail)))).
Proof.
  intros Hrun extraction_time. unfold query_metric in Hrun. cbv zeta in Hrun.
  revert Hrun. run_M.
  destruct (get_catalog_entry c stream_name_) as [entry |] eqn:Hcat; run_M;
    [| intros [= <- <- <-]; by left].
  intros Hrun. right. revert Hrun.
  destruct (parse_bookmark (get_bookmark c nm)) as [b |] eqn:Hb; run_M;
    [| intros [= <- <- <-]; left; eauto].
  intros Hrun. right. revert Hrun.
  destruct (String.eqb_spec per "day") as [-> | Hper]; run_M;
    [| intros [= <- <- <-]; left; eauto 10].
  intros Hrun. right. split; [eauto |]. split; [done |]. revert Hrun.
  fold extraction_time.
  destruct (window_loop _ w stream_name_ nm qry agg stp extraction_time
              (unixtime extraction_time) 86400 b (tick c))
    as [[o1 c1] t1] eqn:Hloop.
  apply window_loop_spec in Hloop
      as (k & it' & c2 & t2 & tail & -> & Hdone & Hbound & Hend); [| lia |].
  - destruct Hend as [(-> & -> & -> & Hlt) | (e & -> & Hle & Hbody)].
    + intros [= <- <- <-].
      exists b, k, it', c2, t2, [WriteState (state c2)].
      rewrite app_nil_r. repeat split; try done. left. done.
    + intros [= <- <- <-].
      exists b, k, it', c2, t2, tail. repeat split; try done. right. eauto.
  - unfold loop_fuel.
    destruct (Z.le_gt_cases 0 ((unixtime extraction_time - b) / 86400));
      lia.
Qed.

(** A call whose bookmark leaves no room for a window before the reading
    of the clock persists the state and returns. *)
Lemma query_metric_idle (c : Context) (b : Z) :
  is_Some (get_catalog_entry c stream_name_) →
  parse_bookmark (get_bookmark c nm) = Some b →
  unixtime (clock w (clock_reads c)) < b + 86400 →
  query_metric w nm qry agg "day" stp c
  = (Returned tt, tick c, [WriteState (state c)]).
Proof.
  intros [entry Hcat] Hb Hlt. unfold query_metric. run_M.
  rewrite Hcat. run_M. rewrite Hb. run_M.
  by rewrite window_loop_stop by done.
Qed.

(** The records of a call are for consecutive windows from its bookmark,
    and its first query is for the window that starts there. *)
Lemma query_metric_dates (per : string) (c : Context) o c' t :
  query_metric w nm qry agg per stp c = (o, c', t) →
  (t = [] ∧ (get_catalog_entry c stream_name_ = None
              ∨ parse_bookmark (get_bookmark c nm) = None
              ∨ per ≠ "day"))
  ∨ ∃ b, parse_bookmark (get_bookmark c nm) = Some b
       ∧ record_dates t = window_starts b 86400 (length (record_dates t))
       ∧ (b + 86400 <= unixtime (clock w (clock_reads c)) →
          ∃ rest, t = RangeQuery qry b (b + 86400) stp :: rest).
Proof.
  intros Hrun.
  apply query_metric_cases in Hrun
      as [(? & -> & -> & ->)
         | [(_ & ? & -> & -> & ->)
           | [(_ & _ & ? & -> & -> & ->)
             | (_ & -> & b & k & it' & c1 & t1 & tail & Hb & -> & Hdone
                  & Hbound & Hend)]]];
    [left; auto .. |].
  right. exists b. split; [done |].
  destruct (completed_windows _ _ _ _ _ _ _ _ _ _ _ _ _ _ Hdone)
    as (Hit & Hdates & _).
  assert (Hfirst : k ≠ 0%nat → ∃ rest,
            t1 = RangeQuery qry b (b + 86400) stp :: rest).
  { intros Hk. inversion Hdone; subst; [done |].
    unfold window_block. simpl. eauto. }
  unfold record_dates in *. rewrite omap_app, Hdates.
  destruct Hend as [(-> & -> & -> & Hlt) | (e & -> & Hle & Hbody)].
  - simpl. rewrite app_nil_r, window_starts_length. split; [done |].
    intros Hroom. destruct k as [| k].
    + rewrite Hit in Hlt. lia.
    + destruct Hfirst as [rest ->]; [done |]. simpl. eauto.
  - apply process_window_raised in Hbody as (_ & Hr & [rest ->] & _).
    split.
    + destruct Hr as [[Hr _] | [Hr _]]; unfold record_dates in Hr;
        rewrite Hr, ?app_nil_r, ?length_app, window_starts_length;
        [done |].
      simpl. rewrite window_starts_app. f_equal.
      unfold window_starts. simpl. f_equal. lia.
    + intros _. destruct k as [| k].
      * inversion Hdone; subst. simpl. eauto.
      * destruct Hfirst as [rest' ->]; [done |]. simpl. eauto.
Qed.

(** The bookmark in memory after a call: the end of the last window it
    wrote a record for.  This holds of a call that returns, and of one that
    raises provided the stream has its counter and the clock reads a time
    that [datetime] can hold (which rule out an exception between a record
    and its bookmark). *)
Lemma query_metric_checkpoint (per : string) (c : Context) o c' t :
  query_metric w nm qry agg per stp c = (o, c', t) →
  o = Returned tt
  ∨ (is_Some (new_counts c !! stream_name_)
     ∧ unixtime (clock w (clock_reads c)) <= MAX_TIMESTAMP) →
  config c' = config c ∧ catalog c' = catalog c
  ∧ ((record_dates t = [] ∧ state c' = state c)
     ∨ ∃ b value,
         parse_bookmark (get_bookmark c nm) = Some b
         ∧ record_dates t ≠ []
         ∧ state c' !! nm = Some value
         ∧ format_bookmark
             (b + 86400 * Z.of_nat (length (record_dates t)))
           = Some value).
Proof.
  intros Hrun Hgood.
  apply query_metric_cases in Hrun
      as [(_ & -> & -> & ->)
         | [(_ & _ & -> & -> & ->)
           | [(_ & _ & _ & -> & -> & ->)
             | (_ & -> & b & k & it' & c1 & t1 & tail & Hb & -> & Hdone
                  & Hbound & Hend)]]];
    [split_and!; auto .. |].
  destruct (completed_windows _ _ _ _ _ _ _ _ _ _ _ _ _ _ Hdone)
    as (Hit & Hdates & _).
  destruct (completed_context _ _ _ _ _ _ _ _ _ _ _ _ _ _ Hdone)
    as (Hcfg & Hcat & _ & _ & _ & _ & Hsome & _ & Hk0 & Hk).
  assert (Hstate : state c' = state c1 ∧ config c' = config c1
                   ∧ catalog c' = catalog c1 ∧ record_dates tail = []).
  { destruct Hend as [(-> & -> & -> & Hlt) | (e & -> & Hle & Hbody)];
      [done |].
    destruct Hgood as [[=] | [Hn Hmax]].
    apply process_window_raised in Hbody
        as (_ & _ & _ & Hnone & _ & _ & Hcfg' & Hcat' & Hst' & _).
    split_and!; try done. apply Hnone.
    - by apply Hsome.
    - apply format_bookmark_is_Some. split; [| lia].
      apply parse_bookmark_lower in Hb. lia. }
  destruct Hstate as (Hst & -> & -> & Htail).
  split; [done |]. split; [done |].
  unfold record_dates in *. rewrite omap_app, Htail, app_nil_r, Hdates.
  rewrite window_starts_length, Hst.
  destruct k as [| k].
  - left. split; [done |]. by rewrite Hk0.
  - right. destruct Hk as (value & Hf & ->); [done |].
    exists b, value. split_and!; try done.
    + by rewrite window_starts_S.
    + apply lookup_insert_eq.
    + by rewrite <- Hit.
Qed.

(** What holds of every run of [query_metric], however it ends. *)
Lemma query_metric_summary (per : string) (c : Context) o c' t :
  query_metric w nm qry agg per stp c = (o, c', t) →
  let extraction_time := clock w (clock_reads c) in
  o ≠ OutOfFuel
  ∧ record_times t = replicate (length (record_dates t)) extraction_time
  ∧ Forall (λ d, d + 86400 <= unixtime extraction_time) (record_dates t)
  ∧ Forall (λ d, d + 86400 <= unixtime extraction_time) (query_starts t)
  ∧ config c' = config c ∧ catalog c' = catalog c
  ∧ updated_counts c' = updated_counts c
  ∧ (∀ s, is_Some (new_counts c' !! s) ↔ is_Some (new_counts c !! s))
  ∧ (t = [] ∧ clock_reads c' = clock_reads c
     ∨ clock_reads c' = S (clock_reads c)).
Proof.
  intros Hrun extraction_time.
  apply query_metric_cases in Hrun
      as [(_ & -> & -> & ->)
         | [(_ & _ & -> & -> & ->)
           | [(_ & _ & _ & -> & -> & ->)
             | (_ & -> & b & k & it' & c1 & t1 & tail & Hb & -> & Hdone
                  & Hbound & Hend)]]];
    try (split_and!; auto; done).
  fold extraction_time in Hdone, Hbound, Hend.
  destruct (completed_windows _ _ _ _ _ _ _ _ _ _ _ _ _ _ Hdone)
    as (Hit & Hdates & Hqueries & Htimes).
  destruct (completed_context _ _ _ _ _ _ _ _ _ _ _ _ _ _ Hdone)
    as (Hcfg & Hcat & Hup & Hck & _ & _ & Hsome & _).
  assert (Hall : Forall (λ d, d + 86400 <= unixtime extraction_time)
                        (window_starts b 86400 k)).
  { unfold window_starts. apply Forall_fmap, Forall_seqZ. intros i Hi. simpl.
    destruct k as [| k]; [lia |]. specialize (Hbound ltac:(done)). lia. }
  unfold record_times, record_dates, query_starts in *.
  rewrite !omap_app, Hdates, Hqueries, Htimes, length_app, replicate_add,
    !Forall_app.
  destruct Hend as [(-> & -> & -> & Hlt) | (e & -> & Hle & Hbody)].
  - simpl. rewrite Hcfg, Hcat, Hup, Hck.
    unfold window_starts. rewrite length_fmap, length_seqZ, Nat2Z.id.
    split_and!; auto.
  - apply process_window_raised in Hbody
        as (Hq & Hr & _ & _ & _ & _ & Hcfg' & Hcat' & _ & Hup' & Hck'
              & Hsome' & _).
    fold (query_starts tail). fold (record_dates tail).
    fold (record_times tail). rewrite Hq, Hcfg', Hcat', Hup', Hck'.
    rewrite Hcfg, Hcat, Hup, Hck.
    unfold window_starts. rewrite length_fmap, length_seqZ, Nat2Z.id.
    destruct Hr as [[-> ->] | [-> ->]]; simpl;
      split_and!; auto; intros s; by rewrite Hsome', Hsome.
Qed.

Lemma persist_count_positions (seen : nat) (t : list event) :
  persist_count t = length (persist_positions seen t).
Proof.
  unfold persist_count. revert seen.
  induction t as [| e t IH]; intros seen; [done |].
  destruct e; simpl; auto.
Qed.

(** The persists of a call: where they are in the trace and what they
    hold.  The stream has its counter, at [n]; the call returns, or the
    clock reads a time [datetime] can hold. *)
Lemma query_metric_persists (per : string) (c : Context) (n : Z) o c' t :
  query_metric w nm qry agg per stp c = (o, c', t) →
  new_counts c !! stream_name_ = Some n →
  o = Returned tt ∨ unixtime (clock w (clock_reads c)) <= MAX_TIMESTAMP →
  let k := length (record_dates t) in
  let final := match o with Returned _ => [k] | _ => [] end in
  persist_positions 0 t
  = filter (λ j : nat, (n + Z.of_nat j) mod 100 = 0) (seq 1 k) ++ final
  ∧ (∀ b, parse_bookmark (get_bookmark c nm) = Some b →
       Forall2 (checkpoint_of nm (state c) b 86400)
               (persist_positions 0 t) (persists t))
  ∧ Z.of_nat (persist_count t)
    = (n + Z.of_nat k) / 100 - n / 100 + Z.of_nat (length final).
Proof.
  intros Hrun Hn Hgood.
  assert (Hempty :
    let k := length (record_dates []) in
    let final : list nat := [] in
    persist_positions 0 []
    = filter (λ j : nat, (n + Z.of_nat j) mod 100 = 0) (seq 1 k) ++ final
    ∧ (∀ b, parse_bookmark (get_bookmark c nm) = Some b →
         Forall2 (checkpoint_of nm (state c) b 86400)
                 (persist_positions 0 []) (persists []))
    ∧ Z.of_nat (persist_count [])
      = (n + Z.of_nat k) / 100 - n / 100 + Z.of_nat (length final)).
  { cbv zeta. simpl. split_and!; [done | constructor |].
    unfold persist_count. simpl. rewrite !Z.add_0_r. lia. }
  apply query_metric_cases in Hrun
      as [(_ & -> & -> & ->)
         | [(_ & _ & -> & -> & ->)
           | [(_ & _ & _ & -> & -> & ->)
             | (_ & -> & b & k & it' & c1 & t1 & tail & Hb & -> & Hdone
                  & Hbound & Hend)]]];
    [exact Hempty .. |].
  clear Hempty.
  change (new_counts c) with (new_counts (tick c)) in Hn.
  destruct (completed_windows _ _ _ _ _ _ _ _ _ _ _ _ _ _ Hdone)
    as (Hit & Hdates & _).
  destruct (completed_context _ _ _ _ _ _ _ _ _ _ _ _ _ _ Hdone)
    as (_ & _ & _ & _ & _ & _ & Hsome & _ & Hk0 & Hk).
  pose proof (completed_positions _ _ _ _ _ _ _ _ _ _ _ _ _ _ _ 0%nat
                Hdone Hn) as Hpos.
  pose proof (completed_persists _ _ _ _ _ _ _ _ _ _ _ _ _ _ _ Hdone Hn)
    as Hcount.
  pose proof (completed_persist_states _ _ _ _ _ _ _ _ _ _ _ _ _ _ 0%nat
                Hdone) as Hstates.
  assert (Hfilter :
    filter (λ j : nat, (n + (Z.of_nat j - Z.of_nat 0)) mod 100 = 0)
           (seq 1 k)
    = filter (λ j : nat, (n + Z.of_nat j) mod 100 = 0) (seq 1 k)).
  { apply list_filter_iff. intros j.
    by replace (n + (Z.of_nat j - Z.of_nat 0)) with (n + Z.of_nat j) by lia. }
  rewrite Hfilter in Hpos.
  assert (Hstates' : ∀ b', parse_bookmark (get_bookmark c nm) = Some b' →
            Forall2 (checkpoint_of nm (state c) b' 86400)
                    (persist_positions 0 t1) (persists t1)).
  { intros b' Hb'. rewrite Hb in Hb'. injection Hb' as <-.
    eapply Forall2_impl; [| exact Hstates].
    intros j st (value & Hf & ->). right. exists value. split; [| done].
    rewrite <- Hf. f_equal. lia. }
  assert (Hk' : length (record_dates t1) = k).
  { rewrite Hdates. apply window_starts_length. }
  cbv zeta.
  destruct Hend as [(-> & -> & -> & Hlt) | (e & -> & Hle & Hbody)].
  - assert (Hlen : length (record_dates (t1 ++ [WriteState (state c1)])) = k).
    { unfold record_dates in *. rewrite omap_app, length_app, Hk'.
      simpl. lia. }
    rewrite Hlen, persist_positions_app, persists_app, persist_count_app, Hk'.
    simpl. split_and!.
    + by rewrite Hpos.
    + intros b' Hb'. apply Forall2_app; [by apply Hstates' |].
      constructor; [| constructor].
      rewrite Hb in Hb'. injection Hb' as <-.
      destruct k as [| k].
      * left. split; [done |]. by rewrite Hk0.
      * right. destruct Hk as (value & Hf & ->); [done |].
        exists value. split; [| done]. by rewrite <- Hit.
    + unfold persist_count at 2. simpl. lia.
  - destruct Hgood as [[=] | Hmax].
    assert (Hnone : tail = [RangeQuery qry it' (it' + 86400) stp]).
    { pose proof Hbody as Hbody'.
      apply process_window_raised in Hbody'
          as (_ & _ & _ & Hnone & _).
      apply process_window_raised_tail in Hbody as [-> | [v ->]]; [done |].
      exfalso. assert (Hd : record_dates
                 [RangeQuery qry it' (it' + 86400) stp;
                  WriteRecord stream_name_ (mkRecord it' nm agg v)
                    (clock w (clock_reads c))] = []); [| done].
      apply Hnone.
      - apply Hsome. rewrite Hn. eauto.
      - apply format_bookmark_is_Some. split; [| lia].
        apply parse_bookmark_lower in Hb. lia. }
    subst tail.
    assert (Hlen : length (record_dates
                     (t1 ++ [RangeQuery qry it' (it' + 86400) stp])) = k).
    { unfold record_dates in *. rewrite omap_app, length_app, Hk'.
      simpl. lia. }
    rewrite Hlen, persist_positions_app, persists_app, persist_count_app, Hk'.
    simpl. rewrite !app_nil_r. split_and!.
    + done.
    + intros b' Hb'. by apply Hstates'.
    + unfold persist_count at 2. simpl. lia.
Qed.


End Metric.

(* ===================================================================== *)
(** ** The aggregation *)
(* ===================================================================== *)

Section FloatOrder.

Local Open Scope Qc_scope.

(** *** The order of the floats *)

Lemma fle_Num (a b : Qc) : fle (Num a) (Num b) = true ↔ a ≤ b.
Proof.
  simpl. rewrite Qcle_alt. destruct (a ?= b); split; congruence.
Qed.

Lemma fle_refl (x : float) : isna x = false → fle x x = true.
Proof.
  destruct x as [| [] | a]; try done. intros _. apply fle_Num, Qcle_refl.
Qed.

Lemma fle_total (x y : float) :
  isna x = false → isna y = false → fle x y = true ∨ fle y x = true.
Proof.
  destruct x as [| [] | a], y as [| [] | b]; try done; auto.
  intros _ _. rewrite !fle_Num.
  destruct (Qclt_le_dec a b); auto using Qclt_le_weak.
Qed.

Lemma fle_trans (x y z : float) :
  fle x y = true → fle y z = true → fle x z = true.
Proof.
  destruct x as [| [] | a], y as [| [] | b], z as [| [] | c]; try done.
  rewrite !fle_Num. apply Qcle_trans.
Qed.

Lemma fle_antisym (x y : float) :
  fle x y = true → fle y x = true → x = y.
Proof.
  destruct x as [| [] | a], y as [| [] | b]; try done.
  rewrite !fle_Num. intros H1 H2. f_equal. by apply Qcle_antisym.
Qed.

Lemma fle_notna (x y : float) :
  fle x y = true → isna x = false ∧ isna y = false.
Proof. by destruct x as [| [] | a], y as [| [] | b]. Qed.

Lemma fmin_spec (x y : float) :
  isna x = false → isna y = false →
  (fmin x y = x ∨ fmin x y = y)
  ∧ fle (fmin x y) x = true ∧ fle (fmin x y) y = true.
Proof.
  intros Hx Hy. unfold fmin. destruct (fle x y) eqn:E.
  - auto using fle_refl.
  - destruct (fle_total x y Hx Hy) as [H | H]; [congruence |].
    auto using fle_refl.
Qed.

Lemma fmax_spec (x y : float) :
  isna x = false → isna y = false →
  (fmax x y = x ∨ fmax x y = y)
  ∧ fle x (fmax x y) = true ∧ fle y (fmax x y) = true.
Proof.
  intros Hx Hy. unfold fmax. destruct (fle x y) eqn:E.
  - auto using fle_refl.
  - destruct (fle_total x y Hx Hy) as [H | H]; [congruence |].
    auto using fle_refl.
Qed.

Lemma foldl_fmin_spec (xs : list float) (x : float) :
  Forall (λ y, isna y = false) (x :: xs) →
  foldl fmin x xs ∈ x :: xs
  ∧ ∀ y, y ∈ x :: xs → fle (foldl fmin x xs) y = true.
Proof.
  revert x. induction xs as [| z xs IH]; intros x Hna; simpl.
  - apply Forall_cons_1 in Hna as [Hx _].
    split; [apply list_elem_of_singleton; done |].
    intros y ->%list_elem_of_singleton. by apply fle_refl.
  - apply Forall_cons_1 in Hna as [Hx Hna].
    pose proof Hna as Hna'. apply Forall_cons_1 in Hna' as [Hz Hxs].
    destruct (fmin_spec x z Hx Hz) as (Hor & Hmx & Hmz).
    destruct (IH (fmin x z)) as [Hin Hle].
    { apply Forall_cons_2; [| done]. by destruct Hor as [-> | ->]. }
    split.
    + rewrite !elem_of_cons in *.
      destruct Hin as [-> | Hin]; [destruct Hor as [-> | ->] |]; auto.
    + intros y Hy.
      assert (Hm : fle (foldl fmin (fmin x z) xs) (fmin x z) = true)
        by (apply Hle, elem_of_cons; auto).
      apply elem_of_cons in Hy as [-> | Hy]; [eauto using fle_trans |].
      apply elem_of_cons in Hy as [-> | Hy]; [eauto using fle_trans |].
      apply Hle, elem_of_cons. auto.
Qed.

Lemma foldl_fmax_spec (xs : list float) (x : float) :
  Forall (λ y, isna y = false) (x :: xs) →
  foldl fmax x xs ∈ x :: xs
  ∧ ∀ y, y ∈ x :: xs → fle y (foldl fmax x xs) = true.
Proof.
  revert x. induction xs as [| z xs IH]; intros x Hna; simpl.
  - apply Forall_cons_1 in Hna as [Hx _].
    split; [apply list_elem_of_singleton; done |].
    intros y ->%list_elem_of_singleton. by apply fle_refl.
  - apply Forall_cons_1 in Hna as [Hx Hna].
    pose proof Hna as Hna'. apply Forall_cons_1 in Hna' as [Hz Hxs].
    destruct (fmax_spec x z Hx Hz) as (Hor & Hmx & Hmz).
    destruct (IH (fmax x z)) as [Hin Hle].
    { apply Forall_cons_2; [| done]. by destruct Hor as [-> | ->]. }
    split.
    + rewrite !elem_of_cons in *.
      destruct Hin as [-> | Hin]; [destruct Hor as [-> | ->] |]; auto.
    + intros y Hy.
      assert (Hm : fle (fmax x z) (foldl fmax (fmax x z) xs) = true)
        by (apply Hle, elem_of_cons; auto).
      apply elem_of_cons in Hy as [-> | Hy]; [eauto using fle_trans |].
      apply elem_of_cons in Hy as [-> | Hy]; [eauto using fle_trans |].
      apply Hle, elem_of_cons. auto.
Qed.

Lemma dropna_notna (l : list float) :
  Forall (λ y, isna y = false) (dropna l).
Proof.
  apply Forall_forall. intros x Hx.
  by apply list_elem_of_In, list_elem_of_filter in Hx as [Hx _].
Qed.

(** The least and the greatest of the samples that are no NaN. *)
Lemma df_min_spec (l : list float) :
  dropna l ≠ [] →
  df_min l ∈ dropna l ∧ ∀ x, x ∈ dropna l → fle (df_min l) x = true.
Proof.
  intros Hne. pose proof (dropna_notna l) as Hna. unfold df_min.
  destruct (dropna l) as [| x xs]; [done |]. by apply foldl_fmin_spec.
Qed.

Lemma df_max_spec (l : list float) :
  dropna l ≠ [] →
  df_max l ∈ dropna l ∧ ∀ x, x ∈ dropna l → fle x (df_max l) = true.
Proof.
  intros Hne. pose proof (dropna_notna l) as Hna. unfold df_max.
  destruct (dropna l) as [| x xs]; [done |]. by apply foldl_fmax_spec.
Qed.

End FloatOrder.

(* ===================================================================== *)
(** ** Sums of whole numbers *)
(* ===================================================================== *)

Section Exact.

Local Open Scope Z_scope.

Local Abbreviation Zf z := (Num (Qc_of_Z z)).



Lemma rne_even (n : Z) : rne (2 * n) 2 = n.
Proof.
  unfold rne.
  replace (2 * n) with (n * 2) by lia.
  rewrite Z.mod_mul, Z.div_mul by lia. reflexivity.
Qed.




Local Arguments fadd : simpl never.

Lemma sumZ_cons (z : Z) (l : list Z) : sumZ (z :: l) = z + sumZ l.
Proof. reflexivity. Qed.














End Exact.

(* ===================================================================== *)
(** ** The aggregation: the claims *)
(* ===================================================================== *)

Section Aggregation.

Local Open Scope Qc_scope.
Local Abbreviation Zf z := (Num (Qc_of_Z z)).

Lemma aggregate_unknown (method : string) (l : list float) :
  method ∉ ["min"; "max"; "avg"]%string →
  aggregate method l
  = inl (Exception ("Aggregation method not implemented: " +:+ method)).
Proof.
  intros Hm. unfold aggregate.
  rewrite !elem_of_cons in Hm.
  destruct (String.eqb_spec method "max") as [-> |]; [tauto |].
  destruct (String.eqb_spec method "min") as [-> |]; [tauto |].
  destruct (String.eqb_spec method "avg") as [-> |]; [tauto |].
  done.
Qed.

Lemma aggregate_min (l : list float) : aggregate "min" l = inr (df_min l).
Proof. reflexivity. Qed.

Lemma aggregate_max (l : list float) : aggregate "max" l = inr (df_max l).
Proof. reflexivity. Qed.



Lemma same_values_dropna (l l' : list float) :
  (∀ x, x ∈ l ↔ x ∈ l') → ∀ x, x ∈ dropna l ↔ x ∈ dropna l'.
Proof.
  intros Hsame x. unfold dropna. rewrite !list_elem_of_filter.
  by rewrite Hsame.
Qed.

Lemma same_values_nil {A} (l : list A) : (∀ x, x ∈ [] ↔ x ∈ l) → l = [].
Proof.
  destruct l as [| y l]; [done |]. intros H. exfalso.
  apply (elem_of_nil y), H, elem_of_cons. auto.
Qed.



(** C5, as the specification words it, fails: the mean of the values NaN
    and 1, their sum over their number, is NaN, while ['avg'] skips the
    NaN and returns 1. *)
Lemma aggregate_avg_skips_nan :
  ¬ (∀ raw : list sample, raw ≠ [] →
       aggregate "avg" (astype_float <$> raw)
       = inr (arithmetic_mean (astype_float <$> raw)))
  ∧ arithmetic_mean (astype_float <$> [SNaN; SNum (Qc_of_Z 1)]) = NaN
  ∧ aggregate "avg" (astype_float <$> [SNaN; SNum (Qc_of_Z 1)])
    = inr (Num (Qc_of_Z 1)).
Proof.
  assert (Havg : aggregate "avg" (astype_float <$> [SNaN; SNum (Qc_of_Z 1)])
                 = inr (Num (Qc_of_Z 1))).
  { vm_compute. do 2 f_equal. apply Qc_is_canon. reflexivity. }
  split; [| split; [reflexivity | exact Havg]].
  intros H. specialize (H [SNaN; SNum (Qc_of_Z 1)] ltac:(done)).
  rewrite Havg in H. discriminate H.
Qed.

(** C4, as the code has it.  The aggregation makes no check of the
    series: on an empty one each of min, max and avg returns NaN, and only
    an unknown method raises. *)
Theorem aggregate_empty (method : string) :
  (method ∈ ["min"; "max"; "avg"]%string → aggregate method [] = inr NaN)
  ∧ (method ∉ ["min"; "max"; "avg"]%string →
     aggregate method []
     = inl (Exception ("Aggregation method not implemented: " +:+ method))).
Proof.
  split; [| apply aggregate_unknown].
  intros Hm. repeat (apply elem_of_cons in Hm as [-> | Hm]); try done.
  by apply elem_of_nil in Hm.
Qed.

(** C4, as the specification words it, fails: the empty series is not
    rejected. *)
Lemma aggregate_empty_not_rejected :
  ¬ (∀ method, method ∈ ["min"; "max"; "avg"]%string →
               ∃ e, aggregate method [] = inl e).
Proof.
  intros H. destruct (H "max"%string) as [e He]; [| done].
  rewrite !elem_of_cons. auto.
Qed.

End Aggregation.


(* ===================================================================== *)
(** ** The run: periods, extraction time and counters *)
(* ===================================================================== *)

Section Run.

(** C6. A metric whose period is not ['day'] makes [query_metric] raise
    with an empty trace: no range query has been issued and no record
    written; [sync] stops there, the metrics after it are not processed.
    When the stream is in the catalog and the bookmark is a date, the
    exception is the one of line 133. *)
Theorem unsupported_period_aborts (w : world) (nm qry agg per : string)
    (stp : Z) (c : Context) (rest : list metric) :
  per ≠ "day" →
  ∃ e c',
    query_metric w nm qry agg per stp c = (Raised e, c', [])
    ∧ sync_metrics w (mkMetric nm qry agg per stp :: rest) c
      = (Raised e, c', [])
    ∧ (is_Some (get_catalog_entry c stream_name_) →
       is_Some (parse_bookmark (get_bookmark c nm)) →
       e = Exception ("Period is not supported: " +:+ per)).
Proof.
  intros Hper.
  destruct (query_metric w nm qry agg per stp c) as [[o c'] t] eqn:Hrun.
  assert (∃ e, o = Raised e ∧ t = []
               ∧ (is_Some (get_catalog_entry c stream_name_) →
                  is_Some (parse_bookmark (get_bookmark c nm)) →
                  e = Exception ("Period is not supported: " +:+ per)))
    as (e & -> & -> & He).
  { apply query_metric_cases in Hrun
        as [(Hcat & -> & -> & ->)
           | [(_ & Hb & -> & -> & ->)
             | [(_ & _ & _ & -> & -> & ->) | (_ & -> & _)]]];
      [| | | done].
    - eexists. split_and!; try done. rewrite Hcat. by intros [? ?].
    - eexists. split_and!; try done. rewrite Hb. by intros _ [? ?].
    - eexists. split_and!; done. }
  exists e, c'. split_and!; try done.
  simpl. unfold mbind, M_bind, bind. simpl. by rewrite Hrun.
Qed.

Lemma unsupported_period_aborts_witness :
  "hour"%string ≠ "day"%string
  ∧ ∃ e c',
      query_metric example_world "cpu" "cpu_usage" "avg" "hour" 60
                   example_context
      = (Raised e, c', []).
Proof.
  split; [done |].
  destruct (unsupported_period_aborts example_world "cpu" "cpu_usage" "avg"
              "hour" 60 example_context [] ltac:(done)) as (e & c' & H & _).
  exists e, c'. exact H.
Defined.

(** *** The windows of the loop *)

(** C2, as the code has it.  For every checkpoint, every period
    [P > 0] and every [now], with the fuel the loop needs: the loop ends;
    the windows it queries start at the checkpoint and follow each other
    at distance [P]; none of them ends after [now]; the records it writes
    are for a prefix of them; and when no window raises, they are
    [max 0 (floor ((now - checkpoint) / P))] in number, each with its
    record. *)
Theorem window_loop_windows (fuel : nat) (w : world)
    (stream_name nm qry agg : string)
    (stp extraction_time now_ts P checkpoint_ts : Z) (c : Context) :
  0 < P → (now_ts - checkpoint_ts) / P <= Z.of_nat fuel →
  let r := window_loop fuel w stream_name nm qry agg stp extraction_time
                       now_ts P checkpoint_ts c in
  outcome_of r ≠ OutOfFuel
  ∧ query_starts (trace_of r)
    = window_starts checkpoint_ts P (length (query_starts (trace_of r)))
  ∧ Forall (λ s, s + P <= now_ts) (query_starts (trace_of r))
  ∧ record_dates (trace_of r)
    = window_starts checkpoint_ts P (length (record_dates (trace_of r)))
  ∧ (length (record_dates (trace_of r))
     <= length (query_starts (trace_of r)))%nat
  ∧ (outcome_of r = Returned tt →
     Z.of_nat (length (query_starts (trace_of r)))
     = Z.max 0 ((now_ts - checkpoint_ts) / P)
     ∧ record_dates (trace_of r) = query_starts (trace_of r)).
Proof.
  intros HP Hfuel r. subst r.
  destruct (window_loop fuel w stream_name nm qry agg stp extraction_time
              now_ts P checkpoint_ts c) as [[o c'] t] eqn:Hrun.
  apply window_loop_spec in Hrun
      as (k & it' & c1 & t1 & tail & -> & Hdone & Hbound & Hend); [| done ..].
  destruct (completed_windows _ _ _ _ _ _ _ _ _ _ _ _ _ _ Hdone)
    as (-> & Hdates & Hqueries & _).
  unfold outcome_of, trace_of. simpl.
  unfold record_dates, query_starts in *. rewrite !omap_app, Hdates, Hqueries.
  destruct Hend as [(-> & -> & -> & Hlt) | (e & -> & Hle & Hbody)].
  - simpl. rewrite !app_nil_r, window_starts_length.
    split_and!; try done.
    + by apply window_starts_bound.
    + intros _. split; [| done].
      destruct k as [| k].
      * rewrite Z.mul_0_r, Z.add_0_r in Hlt.
        assert ((now_ts - checkpoint_ts) / P < 1); [| lia].
        apply Z.div_lt_upper_bound; lia.
      * specialize (Hbound ltac:(done)).
        assert ((now_ts - checkpoint_ts) / P = Z.of_nat (S k)); [| lia].
        symmetry. apply (Z.div_unique_pos _ _ _
          (now_ts - checkpoint_ts - P * Z.of_nat (S k))); lia.
  - apply process_window_raised in Hbody as (Hq & Hr & _).
    fold (query_starts tail). fold (record_dates tail). rewrite Hq.
    assert (Hsnoc : window_starts checkpoint_ts P k
                    ++ [checkpoint_ts + P * Z.of_nat k]
                    = window_starts checkpoint_ts P (S k)).
    { replace (S k) with (k + 1)%nat by lia. rewrite window_starts_app.
      f_equal. unfold window_starts. simpl. f_equal. lia. }
    rewrite Hsnoc.
    destruct Hr as [[-> _] | [-> _]];
      rewrite ?app_nil_r, ?Hsnoc, !window_starts_length;
      split_and!; try done; try lia;
      apply window_starts_bound; try done; intros _; lia.
Qed.

Lemma window_loop_windows_witness :
  0 < 86400
  ∧ (1704326400 - 1704067200) / 86400 <= Z.of_nat 3
  ∧ let r := window_loop 3 example_world stream_name_ "cpu" "cpu_usage"
               "avg" 60 1704326400000000 1704326400 86400 1704067200
               example_context in
    Z.of_nat (length (query_starts (trace_of r)))
    = Z.max 0 ((1704326400 - 1704067200) / 86400)
    ∧ record_dates (trace_of r) = [1704067200; 1704153600; 1704240000].
Proof.
  assert (H1 : 0 < 86400) by lia.
  assert (H2 : (1704326400 - 1704067200) / 86400 <= Z.of_nat 3)
    by (vm_compute; discriminate).
  split; [exact H1 |]. split; [exact H2 |].
  destruct (window_loop_windows 3 example_world stream_name_ "cpu"
              "cpu_usage" "avg" 60 1704326400000000 1704326400 86400
              1704067200 example_context H1 H2)
    as (_ & _ & _ & _ & _ & Hret).
  split; [apply Hret; vm_compute; reflexivity |].
  vm_compute. reflexivity.
Defined.

(** C2, as the specification words it, fails: from a checkpoint after
    [now] the loop processes no window, while the floor is negative. *)
Lemma window_count_not_floor :
  let r := window_loop 0 example_world stream_name_ "cpu" "cpu_usage"
             "avg" 60 1704326400000000 1704326400 86400 1704844800
             example_context in
  outcome_of r = Returned tt
  ∧ Z.of_nat (length (query_starts (trace_of r)))
    ≠ (1704326400 - 1704844800) / 86400.
Proof. vm_compute. split; [reflexivity | discriminate]. Qed.

(** *** The persists of the state *)

(** C3, as the code has it.  The counter that triggers a persist is
    the stream's count of new records, which all the metrics of a run
    share; [n] is its value when the metric starts.  In a call of
    [query_metric], whether it returns or raises (the clock then reading a
    time [datetime] can hold), the state is persisted right after each
    record that brings that counter to a multiple of 100, and once more
    after the loop when the call returns.  Each persist holds the whole
    state as it is then: the state the call started from with the bookmark
    of the metric at the end of the window of the last record.  That makes
    [(n + k) / 100 - n / 100] persists for [k] records, and one more for a
    call that returns.  Where the counter starts at a multiple of 100, as
    it does for the first metric of a run, a call that returns after 250
    windows has persisted 3 times. *)
Theorem persist_cadence (w : world) (nm qry agg per : string) (stp : Z)
    (c : Context) (n : Z) :
  new_counts c !! stream_name_ = Some n →
  let r := query_metric w nm qry agg per stp c in
  outcome_of r = Returned tt
  ∨ unixtime (clock w (clock_reads c)) <= MAX_TIMESTAMP →
  let k := length (record_dates (trace_of r)) in
  let final := match outcome_of r with Returned _ => [k] | _ => [] end in
  persist_positions 0 (trace_of r)
  = filter (λ j : nat, (n + Z.of_nat j) mod 100 = 0) (seq 1 k) ++ final
  ∧ (∀ b, parse_bookmark (get_bookmark c nm) = Some b →
       Forall2 (checkpoint_of nm (state c) b 86400)
               (persist_positions 0 (trace_of r)) (persists (trace_of r)))
  ∧ Z.of_nat (persist_count (trace_of r))
    = (n + Z.of_nat k) / 100 - n / 100 + Z.of_nat (length final)
  ∧ (n mod 100 = 0 → k = 250%nat → outcome_of r = Returned tt →
     persist_count (trace_of r) = 3%nat).
Proof.
  intros Hn r. subst r.
  destruct (query_metric w nm qry agg per stp c) as [[o c'] t] eqn:Hrun.
  unfold outcome_of, trace_of. simpl. intros Hgood.
  destruct (query_metric_persists _ _ _ _ _ _ _ _ _ _ _ Hrun Hn Hgood)
    as (Hpos & Hstates & Hcount).
  cbv zeta in *. split_and!; [exact Hpos | exact Hstates | exact Hcount |].
  intros Hmod Hk ->. rewrite Hk in Hcount. simpl in Hcount.
  apply Nat2Z.inj. rewrite Hcount. Z.div_mod_to_equations. lia.
Qed.

Lemma persist_cadence_witness :
  let r := query_metric two_metrics_world "cpu" "cpu_usage" "avg" "day" 60
             two_metrics_context in
  new_counts two_metrics_context !! stream_name_ = Some 50
  ∧ outcome_of r = Returned tt
  ∧ persist_positions 0 (trace_of r) = [50; 150; 250; 250]%nat
  ∧ Forall2 (checkpoint_of "cpu" (state two_metrics_context) 1704067200
                           86400)
            (persist_positions 0 (trace_of r)) (persists (trace_of r)).
Proof.
  set (r := query_metric two_metrics_world "cpu" "cpu_usage" "avg" "day" 60
              two_metrics_context).
  assert (H1 : new_counts two_metrics_context !! stream_name_ = Some 50)
    by (vm_compute; reflexivity).
  assert (H2 : outcome_of r = Returned tt) by (vm_compute; reflexivity).
  assert (H3 : parse_bookmark (get_bookmark two_metrics_context "cpu")
               = Some 1704067200) by (vm_compute; reflexivity).
  destruct (persist_cadence two_metrics_world "cpu" "cpu_usage" "avg" "day"
              60 two_metrics_context 50 H1 (or_introl H2))
    as (Hpos & Hstates & _).
  cbv zeta. split; [exact H1 |]. split; [exact H2 |].
  split; [| exact (Hstates _ H3)].
  etrans; [exact Hpos |]. vm_compute. reflexivity.
Defined.

(** C3, as the specification words it, fails: [cpu] is the second
    metric of its run and starts with the stream's counter at 50; its 250
    windows make 4 persists, after its 50th, 150th and 250th record and
    after the loop. *)
Lemma persist_cadence_counts_the_stream :
  let r := query_metric two_metrics_world "cpu" "cpu_usage" "avg" "day" 60
             two_metrics_context in
  new_counts two_metrics_context !! stream_name_ = Some 50
  ∧ outcome_of r = Returned tt
  ∧ length (record_dates (trace_of r)) = 250%nat
  ∧ persist_count (trace_of r) = 4%nat
  ∧ persist_positions 0 (trace_of r) = [50; 150; 250; 250]%nat.
Proof. vm_compute. repeat split; reflexivity. Qed.



(** *** The counters *)

Lemma write_schemas_spec (streams : list catalog_entry) (c : Context) :
  ∃ c' t,
    write_schemas streams c = (Returned tt, c', t)
    ∧ config c' = config c ∧ state c' = state c ∧ catalog c' = catalog c
    ∧ clock_reads c' = clock_reads c
    ∧ (∀ s, s ∈ tap_stream_id <$> streams →
            new_counts c' !! s = Some 0 ∧ updated_counts c' !! s = Some 0)
    ∧ (∀ s, s ∉ tap_stream_id <$> streams →
            new_counts c' !! s = new_counts c !! s
            ∧ updated_counts c' !! s = updated_counts c !! s).
Proof.
  revert c. induction streams as [| entry rest IH]; intros c.
  - exists c, []. split_and!; try done. intros s Hs. by apply elem_of_nil in Hs.
  - simpl. run_M.
    destruct (IH (set_updated_counts (<[tap_stream_id entry := 0]>)
                   (set_new_counts (<[tap_stream_id entry := 0]>) c)))
      as (c' & t & -> & Hcfg & Hst & Hcat & Hck & Hin & Hout).
    eexists _, _. split; [reflexivity |]. simpl in *.
    split_and!; try done.
    + intros s Hs.
      destruct (decide (s ∈ tap_stream_id <$> rest)) as [Hr | Hr]; [auto |].
      apply elem_of_cons in Hs as [-> | Hs]; [| done].
      destruct (Hout _ Hr) as [-> ->]. by rewrite !lookup_insert_eq.
    + intros s Hs. rewrite elem_of_cons in Hs.
      destruct (Hout s) as [-> ->]; [tauto |].
      rewrite !lookup_insert_ne; [done | |]; intros <-; tauto.
Qed.

Lemma sync_metrics_summary (w : world) (ms : list metric) (c : Context)
    o c' t :
  sync_metrics w ms c = (o, c', t) →
  o ≠ OutOfFuel
  ∧ config c' = config c ∧ catalog c' = catalog c
  ∧ updated_counts c' = updated_counts c
  ∧ (∀ s, is_Some (new_counts c' !! s) ↔ is_Some (new_counts c !! s)).
Proof.
  revert c o c' t. induction ms as [| m rest IH]; intros c o c' t.
  - intros [= <- <- <-]. done.
  - simpl. unfold mbind, M_bind, bind.
    destruct (query_metric w (name m) (query m) (aggregation m) (period m)
                (step m) c) as [[o1 c1] t1] eqn:Hrun.
    apply query_metric_summary in Hrun
        as (Ho & _ & _ & _ & Hcfg & Hcat & Hup & Hsome & _).
    destruct o1 as [[] | e |]; [| by intros [= <- <- <-] | done].
    destruct (sync_metrics w rest c1) as [[o2 c2] t2] eqn:Hrest.
    apply IH in Hrest as (Ho2 & Hcfg2 & Hcat2 & Hup2 & Hsome2).
    intros [= <- <- <-]. rewrite Hcfg2, Hcat2, Hup2.
    split_and!; try done. intros s. by rewrite Hsome2.
Qed.

(** Where every counted stream has an update count of zero,
    [print_counts] reports zero updates for each of them. *)
Lemma print_counts_zero (c : Context) :
  (∀ s, is_Some (new_counts c !! s) → updated_counts c !! s = Some 0) →
  ∃ lines,
    print_counts c = Some lines
    ∧ (∀ s n u, (s, n, u) ∈ lines → u = 0 ∧ new_counts c !! s = Some n)
    ∧ (∀ s n, new_counts c !! s = Some n → (s, n, 0) ∈ lines).
Proof.
  intros Hzero. unfold print_counts.
  set (f := λ '(stream_name, stream_count),
              u ← updated_counts c !! stream_name;
              Some (stream_name, stream_count, u)).
  assert (Hf : ∀ s n, new_counts c !! s = Some n → f (s, n) = Some (s, n, 0)).
  { intros s n Hn. unfold f. by rewrite Hzero by eauto. }
  destruct (mapM_is_Some_2 f (map_to_list (new_counts c))) as [lines Hl].
  { apply Forall_forall. intros [s n] Hsn%list_elem_of_In%elem_of_map_to_list.
    change (is_Some (f (s, n))). rewrite (Hf s n Hsn). eauto. }
  exists lines. split; [done |]. apply mapM_Some in Hl. split.
  - intros s n u Hin. apply list_elem_of_lookup in Hin as [i Hi].
    destruct (Forall2_lookup_r _ _ _ _ _ Hl Hi) as ([s' n'] & Hi' & Hfi).
    apply list_elem_of_lookup_2, elem_of_map_to_list in Hi'.
    rewrite (Hf s' n' Hi') in Hfi. by simplify_eq.
  - intros s n Hn. pose proof Hn as Hin.
    apply elem_of_map_to_list, list_elem_of_lookup in Hin as [i Hi].
    destruct (Forall2_lookup_l _ _ _ _ _ Hl Hi) as (line & Hi' & Hfi).
    rewrite (Hf s n Hn) in Hfi. simplify_eq.
    by eapply list_elem_of_lookup_2.
Qed.

(** C10. [sync] sets the update count of every stream of the catalog
    to zero, [query_metric] never changes an update count, and so, however
    the run ends and whatever it emitted, [print_counts] reports zero
    updates for every stream. *)
Theorem updated_counts_stay_zero (w : world) (cfg : Config)
    (st : gmap string string) (cat : list catalog_entry) :
  let c' := context_of (main w cfg st cat) in
  (∀ entry, entry ∈ cat → updated_counts c' !! tap_stream_id entry = Some 0)
  ∧ (∃ lines,
       print_counts c' = Some lines
       ∧ (∀ s n u, (s, n, u) ∈ lines → u = 0)
       ∧ (∀ entry, entry ∈ cat → ∃ n, (tap_stream_id entry, n, 0) ∈ lines))
  ∧ (∀ nm qry agg per stp c,
       updated_counts (context_of (query_metric w nm qry agg per stp c))
       = updated_counts c).
Proof.
  intros c'. subst c'. unfold main, sync. run_M.
  destruct (write_schemas_spec cat (main_context cfg st cat))
    as (c1 & t1 & -> & Hcfg & Hst & Hcat & Hck & Hin & Hout).
  destruct (sync_metrics w (metrics cfg) c1) as [[o2 c2] t2] eqn:Hrun.
  apply sync_metrics_summary in Hrun as (_ & _ & _ & Hup & Hsome).
  unfold context_of. simpl.
  assert (Hzero : ∀ s, is_Some (new_counts c2 !! s) →
                       updated_counts c2 !! s = Some 0).
  { intros s Hs. rewrite Hup. apply Hsome in Hs.
    destruct (decide (s ∈ tap_stream_id <$> cat)) as [Hs' | Hs'].
    - by apply Hin.
    - destruct (Hout s Hs') as [Hn _]. rewrite Hn in Hs. simpl in Hs.
      rewrite lookup_empty in Hs. by destruct Hs. }
  assert (Hcounted : ∀ entry, entry ∈ cat →
                              is_Some (new_counts c2 !! tap_stream_id entry)).
  { intros entry Hentry. apply Hsome.
    destruct (Hin (tap_stream_id entry)) as [-> _]; [| eauto].
    by apply list_elem_of_fmap_2. }
  split_and!.
  - intros entry Hentry. auto.
  - destruct (print_counts_zero c2 Hzero) as (lines & Hl & Hu & Hall).
    exists lines. split_and!; [done | |].
    + intros s n u Hline. by destruct (Hu s n u Hline).
    + intros entry Hentry. destruct (Hcounted entry Hentry) as [n Hn]. eauto.
  - intros nm qry agg per stp c.
    destruct (query_metric w nm qry agg per stp c) as [[o c'] t] eqn:Hq.
    by apply query_metric_summary in Hq as (_ & _ & _ & _ & _ & _ & Hq & _).
Qed.

(** *** Resuming from a checkpoint *)

(** C7. A call of [query_metric] that returns ends with the persist of
    its state.  A second call that starts from that persisted state (with
    the configuration and the catalog of the first) has as its bookmark the
    end of the last window of the first, [last_end] (the first's own
    bookmark when it wrote no record).  While the clock reads less than
    [last_end] plus one period, as it does when it reads what it read for
    the first call, the second call issues no query and writes no record.
    Where the first call wrote no record or [last_end] is in the year 1000 or
    later, the second call reads the bookmark as [last_end]: it persists
    the state and returns while the clock reads less than [last_end] plus
    one period, and queries the window that starts at [last_end] once the
    clock reads that or more.  A bookmark written for an earlier year has
    fewer than four digits of year: the second call raises on it, having
    done nothing. *)
Theorem rerun_is_idle (w w' : world) (nm qry agg per : string) (stp : Z)
    (c c2 : Context) :
  let r := query_metric w nm qry agg per stp c in
  let r' := query_metric w' nm qry agg per stp c2 in
  outcome_of r = Returned tt →
  list.last (trace_of r) = Some (WriteState (state c2)) →
  config c2 = config c → catalog c2 = catalog c →
  ∃ b last_end,
    parse_bookmark (get_bookmark c nm) = Some b
    ∧ last_end = b + 86400 * Z.of_nat (length (record_dates (trace_of r)))
    ∧ (∀ d, list.last (record_dates (trace_of r)) = Some d →
            last_end = d + 86400)
    ∧ unixtime (clock w (clock_reads c)) < last_end + 86400
    ∧ (unixtime (clock w' (clock_reads c2)) < last_end + 86400 →
       query_starts (trace_of r') = [] ∧ record_dates (trace_of r') = [])
    ∧ (record_dates (trace_of r) = [] ∨ Y1000_TIMESTAMP <= last_end →
       parse_bookmark (get_bookmark c2 nm) = Some last_end
       ∧ (unixtime (clock w' (clock_reads c2)) < last_end + 86400 →
          r' = (Returned tt, tick c2, [WriteState (state c2)]))
       ∧ (last_end + 86400 <= unixtime (clock w' (clock_reads c2)) →
          ∃ rest, trace_of r'
                  = RangeQuery qry last_end (last_end + 86400) stp :: rest))
    ∧ (record_dates (trace_of r) ≠ [] → last_end < Y1000_TIMESTAMP →
       r' = (Raised ValueError, c2, [])).
Proof.
  intros r r'. subst r r'.
  destruct (query_metric w nm qry agg per stp c) as [[o c1] t] eqn:Hrun.
  unfold outcome_of, trace_of. simpl. intros -> Hlast Hcfg2 Hcat2.
  apply query_metric_cases in Hrun
      as [(_ & [=] & _) | [(_ & _ & [=] & _) | [(_ & _ & _ & [=] & _)
         | (Hentry & -> & b & k & it' & c1' & t1 & tail & Hb & -> & Hdone
              & Hbound & [(_ & -> & -> & Hlt) | (e & [=] & _)])]]].
  rewrite last_snoc in Hlast. injection Hlast as Hst2.
  destruct (completed_windows _ _ _ _ _ _ _ _ _ _ _ _ _ _ Hdone)
    as (Hit & Hdates & _).
  destruct (completed_context _ _ _ _ _ _ _ _ _ _ _ _ _ _ Hdone)
    as (_ & _ & _ & _ & _ & _ & _ & _ & Hk0 & Hk).
  assert (Hentry2 : is_Some (get_catalog_entry c2 stream_name_)).
  { unfold get_catalog_entry in *. by rewrite Hcat2. }
  assert (Hrecords : record_dates (t1 ++ [WriteState (state c1')])
                     = window_starts b 86400 k).
  { unfold record_dates in *. rewrite omap_app, Hdates. simpl.
    by rewrite app_nil_r. }
  rewrite Hrecords, window_starts_length.
  assert (Hold : k = 0%nat → parse_bookmark (get_bookmark c2 nm) = Some it').
  { intros ->. unfold get_bookmark in *. rewrite <- Hst2, Hcfg2.
    rewrite Hk0 by done. rewrite Hit, Z.mul_0_r, Z.add_0_r. exact Hb. }
  assert (Hnew : k ≠ 0%nat →
            ∃ value, get_bookmark c2 nm = value
                     ∧ format_bookmark it' = Some value).
  { intros Hne. destruct (Hk Hne) as (value & Hf & Hst).
    exists value. split; [| done].
    unfold get_bookmark. by rewrite <- Hst2, Hst, lookup_insert_eq. }
  assert (Hb2 : k = 0%nat ∨ Y1000_TIMESTAMP <= it' →
            parse_bookmark (get_bookmark c2 nm) = Some it').
  { intros Hcase. destruct k as [| k]; [by apply Hold |].
    destruct Hcase as [[=] | Hy].
    destruct Hnew as (value & -> & Hf); [done |].
    by apply parse_format_bookmark. }
  assert (Hbad : k ≠ 0%nat → it' < Y1000_TIMESTAMP →
            query_metric w' nm qry agg "day" stp c2
            = (Raised ValueError, c2, [])).
  { intros Hne Hy. destruct Hnew as (value & Hvalue & Hf); [done |].
    destruct Hentry2 as [entry Hcat]. unfold query_metric. run_M.
    rewrite Hcat. run_M. rewrite Hvalue.
    rewrite (parse_format_bookmark_short it' value Hy Hf). by run_M. }
  exists b, it'. split_and!; try done.
  - intros d. destruct k as [| k]; [done |].
    rewrite window_starts_snoc, last_snoc. intros [= <-]. lia.
  - intros Hidle.
    destruct (decide (k = 0%nat ∨ Y1000_TIMESTAMP <= it')) as [Hcase | Hcase].
    + by rewrite (query_metric_idle w' nm qry agg stp c2 it' Hentry2
                    (Hb2 Hcase) Hidle).
    + rewrite Hbad; [done | lia | lia].
  - intros Hcase.
    assert (Hcase' : k = 0%nat ∨ Y1000_TIMESTAMP <= it').
    { destruct Hcase as [Hnil | Hy]; [left | by right].
      destruct k as [| k]; [done |]. by rewrite window_starts_S in Hnil. }
    split_and!.
    + by apply Hb2.
    + intros Hidle. eapply query_metric_idle; eauto.
    + intros Hroom.
      destruct (query_metric w' nm qry agg "day" stp c2)
        as [[o2 c3] t2] eqn:H2.
      apply query_metric_dates in H2
          as [(_ & [Hno | [Hno | Hno]]) | (b2 & Hb2' & _ & Hfirst)].
      * rewrite Hno in Hentry2. by destruct Hentry2.
      * rewrite (Hb2 Hcase') in Hno. discriminate.
      * done.
      * rewrite (Hb2 Hcase') in Hb2'. injection Hb2' as <-. auto.
  - intros Hne Hy. apply Hbad; [| done]. intros ->. by apply Hne.
Qed.

Lemma rerun_is_idle_witness :
  let r := query_metric example_world "cpu" "cpu_usage" "avg" "day" 60
             example_context in
  let r' := query_metric example_world "cpu" "cpu_usage" "avg" "day" 60
              (context_of r) in
  outcome_of r = Returned tt
  ∧ list.last (trace_of r) = Some (WriteState (state (context_of r)))
  ∧ config (context_of r) = config example_context
  ∧ catalog (context_of r) = catalog example_context
  ∧ ∃ last_end,
      unixtime (clock example_world (clock_reads example_context))
      < last_end + 86400
      ∧ (unixtime (clock example_world (clock_reads (context_of r)))
         < last_end + 86400 →
         query_starts (trace_of r') = [] ∧ record_dates (trace_of r') = []).
Proof.
  set (r := query_metric example_world "cpu" "cpu_usage" "avg" "day" 60
              example_context).
  assert (H1 : outcome_of r = Returned tt) by (vm_compute; reflexivity).
  assert (H2 : list.last (trace_of r)
               = Some (WriteState (state (context_of r))))
    by (vm_compute; reflexivity).
  assert (H3 : config (context_of r) = config example_context)
    by (vm_compute; reflexivity).
  assert (H4 : catalog (context_of r) = catalog example_context)
    by (vm_compute; reflexivity).
  cbv zeta. split; [exact H1 |]. split; [exact H2 |].
  split; [exact H3 |]. split; [exact H4 |].
  destruct (rerun_is_idle example_world example_world "cpu" "cpu_usage"
              "avg" "day" 60 example_context (context_of r) H1 H2 H3 H4)
    as (b & last_end & _ & _ & _ & Hlt & Hidle & _).
  exists last_end. split; [exact Hlt | exact Hidle].
Defined.

(** C1, as the code has it.  In every call of [query_metric] the
    bookmark is written right after the record of its window and holds the
    end of that window.  Where the stream has its counter and the clock
    reads a time [datetime] can hold, the bookmark in memory after the call
    is the end of the last window a record was written for, also when the
    call raises.  A call derives its windows from its bookmark [T]: they
    start at [T] and follow each other.  So a second call that starts from
    the bookmark the first left in memory writes records for the windows
    that follow those of the first, none skipped and none twice.  A call
    that raises persists nothing at the exception: its persists are those
    made after each hundredth record of the stream.  A second call that
    starts from the state of the last persist of the first, made after [j]
    records, starts at the end of the window of the [j]-th record: it skips
    no window, and writes again the records the first wrote after that
    persist. *)
Theorem checkpoint_after_each_window (w w' : world)
    (nm qry agg per : string) (stp : Z) (c c2 : Context) :
  is_Some (new_counts c !! stream_name_) →
  unixtime (clock w (clock_reads c)) <= MAX_TIMESTAMP →
  let r := query_metric w nm qry agg per stp c in
  let r' := query_metric w' nm qry agg per stp c2 in
  let dates := record_dates (trace_of r) in
  let dates' := record_dates (trace_of r') in
  bookmarks_follow_records nm 86400 None (trace_of r)
  ∧ (∀ d, list.last dates = Some d →
       ∃ value, state (context_of r) !! nm = Some value
                ∧ format_bookmark (d + 86400) = Some value)
  ∧ (∀ T, parse_bookmark (get_bookmark c2 nm) = Some T →
       dates' = window_starts T 86400 (length dates'))
  ∧ (state c2 !! nm = state (context_of r) !! nm → config c2 = config c →
     NoDup (dates ++ dates')
     ∧ (∀ b, parse_bookmark (get_bookmark c nm) = Some b →
             dates ++ dates'
             = window_starts b 86400 (length dates + length dates')))
  ∧ (∀ e, outcome_of r = Raised e →
       ∀ st, list.last (trace_of r) ≠ Some (WriteState st))
  ∧ (∀ b j st,
       parse_bookmark (get_bookmark c nm) = Some b →
       list.last (persist_positions 0 (trace_of r)) = Some j →
       list.last (persists (trace_of r)) = Some st →
       state c2 = st → config c2 = config c →
       (j <= length dates)%nat
       ∧ drop j dates
         = window_starts (b + 86400 * Z.of_nat j) 86400 (length dates - j)
       ∧ (∀ T, parse_bookmark (get_bookmark c2 nm) = Some T →
               T = b + 86400 * Z.of_nat j)
       ∧ dates'
         = window_starts (b + 86400 * Z.of_nat j) 86400 (length dates')).
Proof.
  intros [n Hn] Hmax r r' dates dates'. subst r r' dates dates'.
  destruct (query_metric w nm qry agg per stp c) as [[o c1] t] eqn:Hrun.
  destruct (query_metric w' nm qry agg per stp c2) as [[o' c3] t'] eqn:Hrun'.
  unfold trace_of, context_of, outcome_of. simpl.
  pose proof (query_metric_checkpoint _ _ _ _ _ _ _ _ _ _ Hrun
                (or_intror (conj (ex_intro _ n Hn) Hmax)))
    as (Hcfg1 & _ & Hcp).
  pose proof (query_metric_persists _ _ _ _ _ _ _ _ _ _ _ Hrun Hn
                (or_intror Hmax)) as (Hpos & Hstates & _).
  cbv zeta in Hpos.
  pose proof (query_metric_dates _ _ _ _ _ _ _ _ _ _ Hrun) as Hd.
  pose proof (query_metric_dates _ _ _ _ _ _ _ _ _ _ Hrun') as Hd'.
  assert (Hfirst : ∀ T, parse_bookmark (get_bookmark c2 nm) = Some T →
            record_dates t' = window_starts T 86400 (length (record_dates t'))).
  { intros T HT. destruct Hd' as [[-> _] | (b2 & Hb2 & Hdates' & _)];
      [done |]. rewrite Hb2 in HT. by injection HT as <-. }
  assert (Hnone : parse_bookmark (get_bookmark c2 nm) = None →
            record_dates t' = []).
  { intros Hno. destruct Hd' as [[-> _] | (b2 & Hb2 & _)]; [done |].
    congruence. }
  split_and!.
  - apply query_metric_cases in Hrun
        as [(_ & _ & _ & ->) | [(_ & _ & _ & _ & ->)
           | [(_ & _ & _ & _ & _ & ->)
             | (_ & _ & b & k & it' & c1' & t1 & tail & _ & -> & Hdone
                  & _ & Hend)]]]; try done.
    apply bookmarks_follow_records_app.
    + eapply completed_order, Hdone.
    + destruct Hend as [(_ & -> & _) | (e & _ & _ & Hbody)]; [done |].
      by apply process_window_raised in Hbody as (_ & _ & _ & _ & _ & ? & _).
  - intros d Hlast.
    destruct Hcp as [[Hnil _] | (b & value & Hb & _ & Hvalue & Hformat)];
      [by rewrite Hnil in Hlast |].
    destruct Hd as [[-> _] | (b' & Hb' & Hdates & _)]; [done |].
    rewrite Hb in Hb'. injection Hb' as <-.
    exists value. split; [done |]. rewrite <- Hformat. f_equal.
    destruct (length (record_dates t)) as [| k];
      [by rewrite Hdates in Hlast |].
    rewrite Hdates, window_starts_snoc, last_snoc in Hlast.
    injection Hlast as <-. lia.
  - exact Hfirst.
  - intros Hst2 Hcfg2.
    assert (Hall : ∀ b, parse_bookmark (get_bookmark c nm) = Some b →
              record_dates t ++ record_dates t'
              = window_starts b 86400
                  (length (record_dates t) + length (record_dates t'))).
    { intros b Hb.
      destruct Hcp
        as [[Hnil Hst] | (b0 & value & Hb0 & Hne & Hvalue & Hformat)].
      - rewrite Hnil. simpl. apply Hfirst.
        unfold get_bookmark in *. by rewrite Hst2, Hst, Hcfg2.
      - rewrite Hb in Hb0. injection Hb0 as <-.
        destruct Hd as [[-> _] | (b' & Hb' & Hdates & _)];
          [by destruct Hne |].
        rewrite Hb in Hb'. injection Hb' as <-.
        assert (Hbm : get_bookmark c2 nm = value).
        { unfold get_bookmark. by rewrite Hst2, Hvalue. }
        destruct (parse_bookmark (get_bookmark c2 nm)) as [T |] eqn:HT.
        + rewrite Hbm in HT.
          destruct (parse_of_format _ _ _ Hformat HT) as [-> _].
          rewrite window_starts_app, <- Hdates. f_equal. by apply Hfirst.
        + rewrite (Hnone eq_refl). simpl.
          by rewrite app_nil_r, Nat.add_0_r. }
    split; [| done].
    destruct (parse_bookmark (get_bookmark c nm)) as [b |] eqn:Hb.
    + rewrite (Hall b) by done. by apply window_starts_NoDup.
    + destruct Hd as [[-> _] | (b' & [=] & _)]. simpl.
      destruct Hd' as [[-> _] | (b2 & _ & -> & _)]; [constructor |].
      by apply window_starts_NoDup.
  - intros e ->.
    apply query_metric_cases in Hrun
        as [(_ & _ & _ & ->) | [(_ & _ & _ & _ & ->)
           | [(_ & _ & _ & _ & _ & ->)
             | (_ & _ & b & k & it' & c1' & t1 & tail & _ & -> & Hdone
                  & _ & [([=] & _) | (e' & _ & _ & Hbody)])]]]; try done.
    intros st.
    apply process_window_raised_tail in Hbody as [-> | [v ->]];
      by rewrite last_app.
  - intros b j st Hb Hj Hst Hst2 Hcfg2.
    destruct Hd as [[Ht _] | (b' & Hb' & Hdates & _)];
      [by rewrite Ht in Hj |].
    rewrite Hb in Hb'. injection Hb' as <-.
    assert (Hjk : (j <= length (record_dates t))%nat).
    { apply last_Some_elem_of in Hj. rewrite Hpos in Hj.
      apply elem_of_app in Hj as [Hj | Hj].
      - apply list_elem_of_filter in Hj as [_ Hj].
        apply elem_of_seq in Hj. lia.
      - destruct o as [[] | |]; try by apply elem_of_nil in Hj.
        apply list_elem_of_singleton in Hj. lia. }
    pose proof (Forall2_last _ _ _ (Hstates b Hb)) as Hrel.
    rewrite Hj, Hst in Hrel. inversion Hrel as [? ? Hcheck |]; subst.
    assert (HT : ∀ T, parse_bookmark (get_bookmark c2 nm) = Some T →
              T = b + 86400 * Z.of_nat j).
    { intros T HT.
      destruct Hcheck as [[-> Hs] | (value & Hf & Hs)].
      - unfold get_bookmark in *. rewrite Hs, Hcfg2 in HT.
        rewrite Hb in HT. injection HT as <-. lia.
      - unfold get_bookmark in HT. rewrite Hs, lookup_insert_eq in HT.
        by destruct (parse_of_format _ _ _ Hf HT) as [-> _]. }
    split_and!.
    + exact Hjk.
    + rewrite Hdates at 1.
      replace (length (record_dates t))
        with (j + (length (record_dates t) - j))%nat at 1 by lia.
      rewrite window_starts_app.
      rewrite drop_app_length'; [done |]. by rewrite window_starts_length.
    + exact HT.
    + destruct (parse_bookmark (get_bookmark c2 nm)) as [T |] eqn:HT'.
      * rewrite <- (HT T eq_refl). by apply Hfirst.
      * by rewrite (Hnone eq_refl).
Qed.

Lemma checkpoint_after_each_window_witness :
  let r := query_metric failing_world "cpu" "cpu_usage" "avg" "day" 60
             example_context in
  let r' := query_metric example_world "cpu" "cpu_usage" "avg" "day" 60
              (context_of r) in
  is_Some (new_counts example_context !! stream_name_)
  ∧ unixtime (clock failing_world (clock_reads example_context))
    <= MAX_TIMESTAMP
  ∧ outcome_of r = Raised UpstreamQueryError
  ∧ bookmarks_follow_records "cpu" 86400 None (trace_of r)
  ∧ NoDup (record_dates (trace_of r) ++ record_dates (trace_of r'))
  ∧ ∀ st, list.last (trace_of r) ≠ Some (WriteState st).
Proof.
  set (r := query_metric failing_world "cpu" "cpu_usage" "avg" "day" 60
              example_context).
  assert (H1 : is_Some (new_counts example_context !! stream_name_))
    by (exists 0; vm_compute; reflexivity).
  assert (H2 : unixtime (clock failing_world (clock_reads example_context))
               <= MAX_TIMESTAMP)
    by (vm_compute; discriminate).
  assert (H3 : outcome_of r = Raised UpstreamQueryError)
    by (vm_compute; reflexivity).
  cbv zeta. split; [exact H1 |]. split; [exact H2 |]. split; [exact H3 |].
  destruct (checkpoint_after_each_window failing_world example_world "cpu"
              "cpu_usage" "avg" "day" 60 example_context (context_of r)
              H1 H2) as (Horder & _ & _ & Hresume & Hraised & _).
  split; [exact Horder |]. split.
  - destruct (Hresume eq_refl) as (Hnodup & _).
    + vm_compute. reflexivity.
    + exact Hnodup.
  - exact (Hraised _ H3).
Defined.

(** C1, as the specification words it, fails.  The source fails at the
    second window: the run has written the record of the first window and
    its bookmark in memory, and ends with the exception, having persisted
    nothing.  The run that resumes starts from the state the first started
    from, and writes the record of the first window again. *)
Lemma interrupted_run_is_replayed :
  let r1 := main failing_world example_config ∅ example_catalog in
  let r2 := main example_world example_config ∅ example_catalog in
  outcome_of r1 = Raised UpstreamQueryError
  ∧ record_dates (trace_of r1) = [1704067200]
  ∧ persist_count (trace_of r1) = 0%nat
  ∧ record_dates (trace_of r2) = [1704067200; 1704153600; 1704240000]
  ∧ ¬ NoDup (record_dates (trace_of r1) ++ record_dates (trace_of r2)).
Proof.
  vm_compute. split_and!; try reflexivity.
  intros H. apply list.NoDup_cons in H as [H _]. apply H. constructor.
Qed.

End Run.

(* ===================================================================== *)
(** ** More on bookmarks as dates *)
(* ===================================================================== *)

Section Bookmarks.




Lemma digit_inj (a b : Z) :
  0 <= a <= 9 → 0 <= b <= 9 → digit a = digit b → a = b.
Proof.
  intros Ha Hb He. pose proof (digit_value_digit a Ha) as Hv.
  rewrite He, digit_value_digit in Hv by done. by injection Hv.
Qed.

Lemma digit_not_hyphen (a : Z) : 0 <= a <= 9 → digit a ≠ "-"%char.
Proof.
  intros Ha He. pose proof (digit_value_digit a Ha) as Hv.
  rewrite He in Hv. discriminate.
Qed.

Lemma pad2_inj (n n' : Z) (k k' : string) :
  0 <= n <= 99 → 0 <= n' <= 99 → pad2 n k = pad2 n' k' → n = n' ∧ k = k'.
Proof.
  intros Hn Hn' He. pose proof (take_field_pad2 n k Hn) as Hf.
  rewrite He, take_field_pad2 in Hf by done. by injection Hf.
Qed.

(** The year as it is written ends at the first hyphen: no two years
    are written alike. *)
Lemma year_digits_inj (y y' : Z) (k k' : string) :
  1 <= y <= 9999 → 1 <= y' <= 9999 →
  year_digits y (String "-" k) = year_digits y' (String "-" k') →
  y = y' ∧ k = k'.
Proof.
  intros Hy Hy'. unfold year_digits, pad4, pad2.
  assert (Hd : ∀ a b, 0 <= a <= 9 → 0 <= b <= 9 → digit a = digit b → a = b)
    by apply digit_inj.
  assert (Hh : ∀ a, 0 <= a <= 9 → digit a ≠ "-"%char)
    by apply digit_not_hyphen.
  assert (Hh' : ∀ a, 0 <= a <= 9 → "-"%char ≠ digit a)
    by (intros a Ha He; by apply (Hh a Ha)).
  destruct (Z.ltb_spec y 10); [| destruct (Z.ltb_spec y 100);
    [| destruct (Z.ltb_spec y 1000)]];
  (destruct (Z.ltb_spec y' 10); [| destruct (Z.ltb_spec y' 100);
    [| destruct (Z.ltb_spec y' 1000)]]);
  intros He; injection He; intros;
  repeat match goal with
         | H : digit ?a = "-"%char |- _ =>
             exfalso; apply (Hh a); [Z.div_mod_to_equations; lia | exact H]
         | H : "-"%char = digit ?a |- _ =>
             exfalso; apply (Hh' a); [Z.div_mod_to_equations; lia | exact H]
         | H : digit ?a = digit ?b |- _ =>
             apply Hd in H; [| Z.div_mod_to_equations; lia ..]
         end;
  split; try done; Z.div_mod_to_equations; lia.
Qed.

Lemma strftime_inj (dt dt' : datetime) :
  valid_datetime dt = true → valid_datetime dt' = true →
  strftime dt = strftime dt' → dt = dt'.
Proof.
  intros Hv Hv'. unfold valid_datetime, MINYEAR, MAXYEAR in Hv, Hv'.
  rewrite !andb_true_iff, !Z.leb_le in Hv, Hv'.
  assert (Hday : ∀ d : datetime,
            day d <= days_in_month (year d) (month d) →
            1 <= month d <= 12 → day d <= 31).
  { intros d Hd Hm. assert (days_in_month (year d) (month d) <= 31); [| lia].
    unfold days_in_month. remember (month d) as m eqn:Em. clear Em.
    enumerate m 1 12; simpl; try case_match; lia. }
  pose proof (Hday dt ltac:(tauto) ltac:(tauto)).
  pose proof (Hday dt' ltac:(tauto) ltac:(tauto)).
  unfold strftime. intros He.
  assert (Htl : ∀ (a a' : ascii) (k k' : string),
            String a k = String a' k' → k = k') by (intros; congruence).
  apply year_digits_inj in He as [Hy He]; [| lia ..].
  apply pad2_inj in He as [Hm He]; [| lia ..]. apply Htl in He.
  apply pad2_inj in He as [Hd He]; [| lia ..]. apply Htl in He.
  apply pad2_inj in He as [Hh He]; [| lia ..]. apply Htl in He.
  apply pad2_inj in He as [Hmi He]; [| lia ..]. apply Htl in He.
  apply pad2_inj in He as [Hs _]; [| lia ..].
  destruct dt, dt'. simpl in *. by subst.
Qed.

(** X2. Two instants with the same bookmark are the same instant: the
    bookmark loses nothing of a whole second, also where it is written
    with a year of fewer than four digits. *)
Theorem format_bookmark_inj (t1 t2 : Z) (s : string) :
  format_bookmark t1 = Some s → format_bookmark t2 = Some s → t1 = t2.
Proof.
  unfold format_bookmark. intros H1 H2.
  destruct (utcfromtimestamp t1) as [dt1 |] eqn:Hdt1; [| discriminate].
  destruct (utcfromtimestamp t2) as [dt2 |] eqn:Hdt2; [| discriminate].
  simpl in H1, H2. injection H1 as H1. injection H2 as H2.
  destruct (utcfromtimestamp_spec t1) as (d1 & Hd1 & Hv1 & Ht1).
  { apply utcfromtimestamp_range. rewrite Hdt1. eauto. }
  destruct (utcfromtimestamp_spec t2) as (d2 & Hd2 & Hv2 & Ht2).
  { apply utcfromtimestamp_range. rewrite Hdt2. eauto. }
  rewrite Hdt1 in Hd1. injection Hd1 as <-.
  rewrite Hdt2 in Hd2. injection Hd2 as <-.
  rewrite <- Ht1, <- Ht2. f_equal. apply strftime_inj; congruence.
Qed.

Lemma format_bookmark_inj_witness :
  format_bookmark (-62135510400) = Some "1-01-02T00:00:00Z"%string
  ∧ -62135510400 = -62135510400.
Proof.
  assert (H : format_bookmark (-62135510400)
              = Some "1-01-02T00:00:00Z"%string)
    by (vm_compute; reflexivity).
  split; [exact H |]. exact (format_bookmark_inj _ _ _ H H).
Defined.

(** X3. A window of one day ends at the time of day it starts at: the
    instant 86400 seconds later has the same hour, minute and second, and
    is the same time of the next day of the calendar. *)
Theorem next_day_same_time (t : Z) (dt dt' : datetime) :
  utcfromtimestamp t = Some dt →
  utcfromtimestamp (t + 86400) = Some dt' →
  hour dt' = hour dt ∧ minute dt' = minute dt ∧ second dt' = second dt
  ∧ ymd2ord (year dt') (month dt') (day dt')
    = ymd2ord (year dt) (month dt) (day dt) + 1.
Proof.
  intros H H'.
  destruct (utcfromtimestamp_spec t) as (d1 & Hd1 & Hv1 & Ht1).
  { apply utcfromtimestamp_range. eauto. }
  destruct (utcfromtimestamp_spec (t + 86400)) as (d2 & Hd2 & Hv2 & Ht2).
  { apply utcfromtimestamp_range. eauto. }
  rewrite H in Hd1. injection Hd1 as <-.
  rewrite H' in Hd2. injection Hd2 as <-.
  unfold utcfromtimestamp in H, H'. cbv zeta in H, H'.
  replace ((t + 86400) mod 86400) with (t mod 86400) in H'
    by (Z.div_mod_to_equations; lia).
  destruct ((1 <=? t / 86400 + EPOCH_ORDINAL)
            && (t / 86400 + EPOCH_ORDINAL <=? MAXORDINAL)); [| discriminate].
  destruct ((1 <=? (t + 86400) / 86400 + EPOCH_ORDINAL)
            && ((t + 86400) / 86400 + EPOCH_ORDINAL <=? MAXORDINAL));
    [| discriminate].
  destruct (ord2ymd (t / 86400 + EPOCH_ORDINAL)) as [[y m] d].
  destruct (ord2ymd ((t + 86400) / 86400 + EPOCH_ORDINAL)) as [[y' m'] d'].
  injection H as <-. injection H' as <-.
  unfold timestamp in Ht1, Ht2. simpl in *.
  split_and!; try reflexivity. lia.
Qed.

Lemma next_day_same_time_witness :
  ∃ dt dt',
    utcfromtimestamp 1709251199 = Some dt
    ∧ utcfromtimestamp (1709251199 + 86400) = Some dt'
    ∧ hour dt' = hour dt ∧ minute dt' = minute dt ∧ second dt' = second dt.
Proof.
  eexists _, _.
  assert (H : utcfromtimestamp 1709251199
              = Some (mkdt 2024 2 29 23 59 59)) by (vm_compute; reflexivity).
  assert (H' : utcfromtimestamp (1709251199 + 86400)
               = Some (mkdt 2024 3 1 23 59 59)) by (vm_compute; reflexivity).
  split; [exact H |]. split; [exact H' |].
  destruct (next_day_same_time _ _ _ H H') as (Hh & Hm & Hs & _).
  split; [exact Hh |]. split; [exact Hm | exact Hs].
Defined.

End Bookmarks.

(* ===================================================================== *)
(** ** What a call of [query_metric] writes *)
(* ===================================================================== *)

Section Events.

(** Every event of a call is the query, the record or the bookmark of a
    window, or a persist of the state. *)
Lemma query_metric_Forall (Q : event → Prop) (w : world)
    (nm qry agg per : string) (stp : Z) (c : Context) :
  (∀ it, Q (RangeQuery qry it (it + 86400) stp)) →
  (∀ it v, window_value w qry agg stp 86400 it = Some v →
           Q (WriteRecord stream_name_ (mkRecord it nm agg v)
                          (clock w (clock_reads c)))) →
  (∀ value, Q (WriteBookmark nm value)) →
  (∀ st, Q (WriteState st)) →
  Forall Q (trace_of (query_metric w nm qry agg per stp c)).
Proof.
  intros Hrq Hwr Hwb Hws.
  destruct (query_metric w nm qry agg per stp c) as [[o c'] t] eqn:Hrun.
  unfold trace_of. simpl.
  apply query_metric_cases in Hrun
      as [(_ & _ & _ & ->) | [(_ & _ & _ & _ & ->)
         | [(_ & _ & _ & _ & _ & ->)
           | (_ & _ & b & k & it' & c1 & t1 & tail & _ & -> & Hdone
                & _ & Hend)]]]; try constructor.
  apply Forall_app. split.
  - clear Hend.
    induction Hdone as [| k it c0 v n value t it'' c'' Hv Hn Hf _ IH];
      [constructor |].
    apply Forall_app. split; [| exact IH].
    unfold window_block. repeat apply Forall_cons_2; auto.
    destruct ((n + 1) mod 100 =? 0); repeat constructor; auto.
  - destruct Hend as [(_ & -> & _) | (e & _ & _ & Hbody)];
      [repeat constructor; auto |].
    destruct (process_window_cases w stream_name_ nm qry agg stp
                (clock w (clock_reads c)) 86400 it' c1)
      as [(_ & e' & Hb') | (v & Hv & [(e' & c2 & Hb' & _)
                                     | (n & value & _ & _ & Hb')])];
      rewrite Hb' in Hbody; [| | done]; injection Hbody as <- <- <-;
      repeat constructor; auto.
Qed.

(** X4. Every range query of a call of [query_metric] asks for the
    expression of the metric, at the step of the metric, over a window of
    exactly 86400 seconds. *)
Theorem queries_are_day_windows (w : world) (nm qry agg per : string)
    (stp : Z) (c : Context) :
  Forall (is_window_query qry stp 86400)
         (trace_of (query_metric w nm qry agg per stp c)).
Proof. apply query_metric_Forall; intros; simpl; auto. Qed.

(** X5. Every record of a call of [query_metric] goes to the stream
    [aggregated_metric_history] under the name and the aggregation of the
    metric, and its value is the aggregate of the first series the source
    returned for the window the record is dated with: a series after the
    first is never read. *)
Theorem records_aggregate_first_series (w : world)
    (nm qry agg per : string) (stp : Z) (c : Context) :
  Forall (is_window_record w nm qry agg stp 86400)
         (trace_of (query_metric w nm qry agg per stp c)).
Proof.
  apply query_metric_Forall; intros; simpl; auto.
  split_and!; try done. unfold window_value in *.
  destruct (range_query w qry it (it + 86400) stp) as [| [| ts others]];
    try done.
  destruct (aggregate agg (astype_float <$> (snd <$> ts))) as [e | v'] eqn:Hagg; [done |].
  exists ts, others. split; [done |]. congruence.
Qed.

(** X6. A call of [query_metric] writes no schema and no bookmark of
    another metric, and it leaves the bookmarks of the other metrics, the
    configuration and the catalog as they were. *)
Theorem query_metric_touches_one_bookmark (w : world)
    (nm qry agg per : string) (stp : Z) (c : Context) :
  let r := query_metric w nm qry agg per stp c in
  Forall (is_metric_event nm) (trace_of r)
  ∧ delete nm (state (context_of r)) = delete nm (state c)
  ∧ config (context_of r) = config c
  ∧ catalog (context_of r) = catalog c.
Proof.
  intros r. split.
  { apply query_metric_Forall; intros; simpl; auto. }
  subst r.
  destruct (query_metric w nm qry agg per stp c) as [[o c'] t] eqn:Hrun.
  unfold context_of. simpl.
  apply query_metric_cases in Hrun
      as [(_ & _ & -> & _) | [(_ & _ & _ & -> & _)
         | [(_ & _ & _ & _ & -> & _)
           | (_ & _ & b & k & it' & c1 & t1 & tail & _ & -> & Hdone
                & _ & Hend)]]]; try done.
  destruct (completed_context _ _ _ _ _ _ _ _ _ _ _ _ _ _ Hdone)
    as (Hcfg & Hcat & _ & _ & _ & _ & _ & Hst & _).
  assert (Hlast : state c' = state c1 ∧ config c' = config c1
                  ∧ catalog c' = catalog c1).
  { destruct Hend as [(_ & _ & -> & _) | (e & _ & _ & Hbody)]; [done |].
    apply process_window_raised in Hbody
        as (_ & _ & _ & _ & _ & _ & ? & ? & ? & _). done. }
  destruct Hlast as (-> & -> & ->). split_and!; try done.
  apply map_eq. intros m. destruct (decide (nm = m)) as [<- | Hm].
  - by rewrite !lookup_delete_eq.
  - rewrite !lookup_delete_ne by done. by apply Hst.
Qed.

End Events.

(* ===================================================================== *)
(** ** The counter of new records *)
(* ===================================================================== *)

Section Counter.

(** A window adds to the counter of the stream what it adds to the
    records, also when it raises. *)
Lemma process_window_count (w : world) (stream_name nm qry agg : string)
    (stp extraction_time P it : Z) (c : Context) (n : Z) o c' tail :
  new_counts c !! stream_name = Some n →
  process_window w stream_name nm qry agg stp extraction_time P it c
  = (o, c', tail) →
  new_counts c' !! stream_name
  = Some (n + Z.of_nat (length (record_dates tail))).
Proof.
  intros Hn. unfold process_window.
  destruct (range_query w qry it (it + P) stp) as [| [| ts tss]].
  - run_M. intros [= <- <- <-]. simpl. by rewrite Z.add_0_r.
  - run_M. intros [= <- <- <-]. simpl. by rewrite Z.add_0_r.
  - destruct (aggregate agg (astype_float <$> (snd <$> ts))) as [e | v] eqn:Hagg.
    + run_M. rewrite Hagg. run_M. intros [= <- <- <-]. simpl.
      by rewrite Z.add_0_r.
    + destruct (format_bookmark (it + P)) as [value |] eqn:Hf.
      * run_M. rewrite Hagg. run_M. rewrite Hn. run_M.
        rewrite lookup_insert_eq. run_M.
        destruct ((n + 1) mod 100 =? 0); intros [= <- <- <-]; simpl;
          by rewrite lookup_insert_eq.
      * run_M. rewrite Hagg. run_M. rewrite Hn. run_M.
        intros [= <- <- <-]. simpl. by rewrite lookup_insert_eq.
Qed.

Lemma query_metric_count (w : world) (nm qry agg per : string) (stp : Z)
    (c : Context) (n : Z) o c' t :
  new_counts c !! stream_name_ = Some n →
  query_metric w nm qry agg per stp c = (o, c', t) →
  new_counts c' !! stream_name_
  = Some (n + Z.of_nat (length (record_dates t))).
Proof.
  intros Hn Hrun.
  apply query_metric_cases in Hrun
      as [(_ & _ & -> & ->) | [(_ & _ & _ & -> & ->)
         | [(_ & _ & _ & _ & -> & ->)
           | (_ & _ & b & k & it' & c1 & t1 & tail & _ & -> & Hdone
                & _ & Hend)]]];
    try (simpl; by rewrite Z.add_0_r).
  destruct (completed_windows _ _ _ _ _ _ _ _ _ _ _ _ _ _ Hdone)
    as (_ & Hdates & _).
  destruct (completed_context _ _ _ _ _ _ _ _ _ _ _ _ _ _ Hdone)
    as (_ & _ & _ & _ & Hcount & _).
  specialize (Hcount n Hn).
  unfold record_dates in *. rewrite omap_app, length_app, Hdates.
  rewrite window_starts_length.
  destruct Hend as [(_ & -> & -> & _) | (e & _ & _ & Hbody)].
  - simpl. rewrite Hcount. f_equal. lia.
  - rewrite (process_window_count _ _ _ _ _ _ _ _ _ _ _ _ _ _ Hcount Hbody).
    f_equal. unfold record_dates. lia.
Qed.

Lemma sync_metrics_count (w : world) (ms : list metric) (c : Context)
    (n : Z) o c' t :
  new_counts c !! stream_name_ = Some n →
  sync_metrics w ms c = (o, c', t) →
  new_counts c' !! stream_name_
  = Some (n + Z.of_nat (length (record_dates t))).
Proof.
  revert c n o c' t. induction ms as [| m rest IH]; intros c n o c' t Hn.
  - intros [= <- <- <-]. simpl. by rewrite Z.add_0_r.
  - simpl. unfold mbind, M_bind, bind.
    destruct (query_metric w (name m) (query m) (aggregation m) (period m)
                (step m) c) as [[o1 c1] t1] eqn:Hrun.
    pose proof (query_metric_count _ _ _ _ _ _ _ _ _ _ _ Hn Hrun) as Hn1.
    destruct o1 as [[] | e |]; [| by intros [= <- <- <-] ..].
    destruct (sync_metrics w rest c1) as [[o2 c2] t2] eqn:Hrest.
    intros [= <- <- <-]. rewrite (IH _ _ _ _ _ Hn1 Hrest).
    unfold record_dates. rewrite omap_app, length_app. f_equal. lia.
Qed.

(** The schemas are declared one for each entry, in the order of the
    catalog. *)
Lemma write_schemas_trace (streams : list catalog_entry) (c : Context) :
  trace_of (write_schemas streams c)
  = (λ entry, WriteSchema (tap_stream_id entry) (schema entry)
                          (key_properties entry)) <$> streams.
Proof.
  revert c. induction streams as [| entry rest IH]; intros c; [done |].
  simpl. run_M.
  specialize (IH (set_updated_counts (<[tap_stream_id entry := 0]>)
                    (set_new_counts (<[tap_stream_id entry := 0]>) c))).
  destruct (write_schemas rest _) as [[o3 c3] t3].
  unfold trace_of in *. simpl in *. by rewrite IH.
Qed.

(** After [sync] every counted stream has an update count of zero. *)
Lemma main_counts_zero (w : world) (cfg : Config)
    (st : gmap string string) (cat : list catalog_entry) (s : string) :
  is_Some (new_counts (context_of (main w cfg st cat)) !! s) →
  updated_counts (context_of (main w cfg st cat)) !! s = Some 0.
Proof.
  unfold main, sync. run_M.
  destruct (write_schemas_spec cat (main_context cfg st cat))
    as (c1 & t1 & -> & _ & _ & _ & _ & Hin & Hout).
  destruct (sync_metrics w (metrics cfg) c1) as [[o2 c2] t2] eqn:Hrun.
  apply sync_metrics_summary in Hrun as (_ & _ & _ & Hup & Hsome).
  unfold context_of. simpl. intros Hs. rewrite Hup. apply Hsome in Hs.
  destruct (decide (s ∈ tap_stream_id <$> cat)) as [Hs' | Hs'].
  - by apply Hin.
  - destruct (Hout s Hs') as [Hn _]. rewrite Hn in Hs. simpl in Hs.
    rewrite lookup_empty in Hs. by destruct Hs.
Qed.

(** X7. Where the catalog has the stream [aggregated_metric_history],
    the count of new records that [sync] leaves for it is the number of
    records the run has written, however the run ends; it is what
    [print_counts] reports for the stream, with no update. *)
Theorem new_count_is_records_written (w : world) (cfg : Config)
    (st : gmap string string) (cat : list catalog_entry) :
  stream_name_ ∈ tap_stream_id <$> cat →
  let r := main w cfg st cat in
  let written := Z.of_nat (length (record_dates (trace_of r))) in
  new_counts (context_of r) !! stream_name_ = Some written
  ∧ ∃ lines, print_counts (context_of r) = Some lines
             ∧ (stream_name_, written, 0) ∈ lines.
Proof.
  intros Hin r written.
  assert (Hcount : new_counts (context_of r) !! stream_name_ = Some written).
  { subst r written. unfold main, sync. run_M.
    pose proof (write_schemas_trace cat (main_context cfg st cat)) as Htr.
    destruct (write_schemas_spec cat (main_context cfg st cat))
      as (c1 & t1 & Hw & _ & _ & _ & _ & Hzero & _).
    rewrite Hw in Htr |- *. unfold trace_of in Htr. simpl in Htr.
    destruct (sync_metrics w (metrics cfg) c1) as [[o2 c2] t2] eqn:Hrun.
    unfold context_of, trace_of. simpl.
    destruct (Hzero _ Hin) as [Hn _].
    rewrite (sync_metrics_count _ _ _ _ _ _ _ Hn Hrun). f_equal.
    assert (Hnone : record_dates t1 = []).
    { rewrite Htr. clear. induction cat as [| entry rest IH]; [done |].
      exact IH. }
    unfold record_dates in *. rewrite omap_app, Hnone. simpl. lia. }
  split; [exact Hcount |].
  destruct (print_counts_zero (context_of r)) as (lines & Hl & _ & Hall).
  { intros s. apply main_counts_zero. }
  exists lines. split; [exact Hl |]. by apply Hall.
Qed.

Lemma new_count_is_records_written_witness :
  stream_name_ ∈ tap_stream_id <$> example_catalog
  ∧ new_counts (context_of (main example_world example_config ∅
                                 example_catalog)) !! stream_name_
    = Some 3.
Proof.
  assert (H : stream_name_ ∈ tap_stream_id <$> example_catalog)
    by (apply list_elem_of_singleton; reflexivity).
  split; [exact H |].
  destruct (new_count_is_records_written example_world example_config ∅
              example_catalog H) as [Hn _].
  etrans; [exact Hn |]. vm_compute. reflexivity.
Defined.

End Counter.

(* ===================================================================== *)
(** ** How a call of [query_metric] fails *)
(* ===================================================================== *)

Section Errors.

Lemma query_metric_without_stream (w : world) (nm qry agg per : string)
    (stp : Z) (c : Context) :
  get_catalog_entry c stream_name_ = None →
  query_metric w nm qry agg per stp c = (Raised TypeError, c, []).
Proof. intros Hcat. unfold query_metric. run_M. rewrite Hcat. by run_M. Qed.

(** X8. Without the stream [aggregated_metric_history] in the catalog
    the call raises at [catalog_entry['schema']]; with it and a bookmark of
    ASCII characters that is no date of the format, it raises at
    [strptime].  Either way the context is as it was, the clock has not
    been read and nothing has been written. *)
Theorem query_metric_setup_errors (w : world) (nm qry agg per : string)
    (stp : Z) (c : Context) :
  (get_catalog_entry c stream_name_ = None →
   query_metric w nm qry agg per stp c = (Raised TypeError, c, []))
  ∧ (is_Some (get_catalog_entry c stream_name_) →
     ascii_only (get_bookmark c nm) = true →
     parse_bookmark (get_bookmark c nm) = None →
     query_metric w nm qry agg per stp c = (Raised ValueError, c, [])).
Proof.
  split; [apply query_metric_without_stream |].
  intros [entry Hcat] _ Hb. unfold query_metric. run_M.
  rewrite Hcat. run_M. rewrite Hb. by run_M.
Qed.

(** A call whose first window raises ends with that exception, after
    the query of that window. *)
Lemma first_window_raises (w : world) (nm qry agg : string) (stp : Z)
    (c : Context) (b : Z) e c' tail :
  is_Some (get_catalog_entry c stream_name_) →
  parse_bookmark (get_bookmark c nm) = Some b →
  b + 86400 <= unixtime (clock w (clock_reads c)) →
  process_window w stream_name_ nm qry agg stp (clock w (clock_reads c))
                 86400 b (tick c) = (Raised e, c', tail) →
  query_metric w nm qry agg "day" stp c = (Raised e, c', tail).
Proof.
  intros [entry Hcat] Hb Hroom Hbody. unfold query_metric. run_M.
  rewrite Hcat. run_M. rewrite Hb. run_M.
  destruct (loop_fuel b (unixtime (clock w (clock_reads c))) 86400)
    as [| fuel] eqn:Hfuel.
  { unfold loop_fuel in Hfuel.
    assert (1 <= (unixtime (clock w (clock_reads c)) - b) / 86400); [| lia].
    apply Z.div_le_lower_bound; lia. }
  rewrite window_loop_step by done. by rewrite Hbody.
Qed.

(** X9. The case the source leaves open at line 144.  When the source
    answers the query of the first window with no series at all, the call
    raises IndexError; when the query itself fails, the call raises that
    failure.  In both cases the query of that window is all the call has
    done: no record, no bookmark, no persist of the state. *)
Theorem first_window_without_series (w : world) (nm qry agg : string)
    (stp : Z) (c : Context) (b : Z) :
  is_Some (get_catalog_entry c stream_name_) →
  parse_bookmark (get_bookmark c nm) = Some b →
  b + 86400 <= unixtime (clock w (clock_reads c)) →
  (range_query w qry b (b + 86400) stp = PrometheusData [] →
   query_metric w nm qry agg "day" stp c
   = (Raised IndexError, tick c, [RangeQuery qry b (b + 86400) stp]))
  ∧ (range_query w qry b (b + 86400) stp = QueryFailed →
     query_metric w nm qry agg "day" stp c
     = (Raised UpstreamQueryError, tick c,
        [RangeQuery qry b (b + 86400) stp])).
Proof.
  intros Hcat Hb Hroom.
  split; intros Hq; apply (first_window_raises _ _ _ _ _ _ b); try done;
    unfold process_window; rewrite Hq; by run_M.
Qed.

Lemma first_window_without_series_witness :
  is_Some (get_catalog_entry example_context stream_name_)
  ∧ parse_bookmark (get_bookmark example_context "cpu") = Some 1704067200
  ∧ 1704067200 + 86400
    <= unixtime (clock empty_world (clock_reads example_context))
  ∧ outcome_of (query_metric empty_world "cpu" "cpu_usage" "avg" "day" 60
                             example_context) = Raised IndexError.
Proof.
  assert (H1 : is_Some (get_catalog_entry example_context stream_name_))
    by (eexists; vm_compute; reflexivity).
  assert (H2 : parse_bookmark (get_bookmark example_context "cpu")
               = Some 1704067200) by (vm_compute; reflexivity).
  assert (H3 : 1704067200 + 86400
               <= unixtime (clock empty_world (clock_reads example_context)))
    by (vm_compute; discriminate).
  split; [exact H1 |]. split; [exact H2 |]. split; [exact H3 |].
  destruct (first_window_without_series empty_world "cpu" "cpu_usage" "avg"
              60 example_context 1704067200 H1 H2 H3) as [Hempty _].
  rewrite Hempty; reflexivity.
Defined.

(** X10. The aggregation method is checked when a window is
    aggregated, not before.  With a method other than min, max and avg, a
    call that has a first window to process raises once the source has
    answered its query, having written nothing but that query; a call
    whose bookmark leaves no room for a window returns as if the method
    were a good one. *)
Theorem unknown_aggregation_is_found_late (w : world)
    (nm qry agg : string) (stp : Z) (c : Context) (b : Z) :
  agg ∉ ["min"; "max"; "avg"]%string →
  is_Some (get_catalog_entry c stream_name_) →
  parse_bookmark (get_bookmark c nm) = Some b →
  (unixtime (clock w (clock_reads c)) < b + 86400 →
   query_metric w nm qry agg "day" stp c
   = (Returned tt, tick c, [WriteState (state c)]))
  ∧ (b + 86400 <= unixtime (clock w (clock_reads c)) →
     ∀ ts others,
       range_query w qry b (b + 86400) stp = PrometheusData (ts :: others) →
       query_metric w nm qry agg "day" stp c
       = (Raised (Exception ("Aggregation method not implemented: " +:+ agg)),
          tick c, [RangeQuery qry b (b + 86400) stp])).
Proof.
  intros Hagg Hcat Hb. split.
  - intros Hidle. by eapply query_metric_idle.
  - intros Hroom ts others Hq.
    apply (first_window_raises _ _ _ _ _ _ b); try done.
    unfold process_window. rewrite Hq. run_M.
    rewrite (aggregate_unknown agg _ Hagg). by run_M.
Qed.

Lemma unknown_aggregation_is_found_late_witness :
  ("median"%string ∉ ["min"; "max"; "avg"]%string)
  ∧ is_Some (get_catalog_entry example_context stream_name_)
  ∧ parse_bookmark (get_bookmark example_context "cpu") = Some 1704067200
  ∧ outcome_of (query_metric example_world "cpu" "cpu_usage" "median" "day"
                             60 example_context)
    = Raised (Exception "Aggregation method not implemented: median").
Proof.
  assert (H0 : "median"%string ∉ ["min"; "max"; "avg"]%string).
  { rewrite !elem_of_cons, elem_of_nil. intros [H | [H | [H | []]]];
      discriminate H. }
  assert (H1 : is_Some (get_catalog_entry example_context stream_name_))
    by (eexists; vm_compute; reflexivity).
  assert (H2 : parse_bookmark (get_bookmark example_context "cpu")
               = Some 1704067200) by (vm_compute; reflexivity).
  split; [exact H0 |]. split; [exact H1 |]. split; [exact H2 |].
  destruct (unknown_aggregation_is_found_late example_world "cpu"
              "cpu_usage" "median" 60 example_context 1704067200 H0 H1 H2)
    as [_ Hlate].
  erewrite Hlate; [reflexivity | vm_compute; discriminate | reflexivity].
Defined.

End Errors.

(* ===================================================================== *)
(** ** Progress of a run *)
(* ===================================================================== *)

Section Progress.



Lemma query_metric_clock (w : world) (nm qry agg per : string) (stp : Z)
    (c : Context) o c' t :
  query_metric w nm qry agg per stp c = (o, c', t) →
  (clock_reads c <= clock_reads c' <= S (clock_reads c))%nat
  ∧ (o = Returned tt → clock_reads c' = S (clock_reads c)).
Proof.
  intros Hrun. pose proof Hrun as Hsum.
  apply query_metric_summary in Hsum
      as (_ & _ & _ & _ & _ & _ & _ & _ & Hclock).
  split; [destruct Hclock as [[_ ->] | ->]; lia |].
  intros ->.
  apply query_metric_cases in Hrun
      as [(_ & [=] & _) | [(_ & _ & [=] & _) | [(_ & _ & _ & [=] & _)
         | (_ & _ & b & k & it' & c1 & t1 & tail & _ & _ & Hdone & _
              & [(_ & _ & -> & _) | (e & [=] & _)])]]].
  by destruct (completed_context _ _ _ _ _ _ _ _ _ _ _ _ _ _ Hdone)
    as (_ & _ & _ & -> & _).
Qed.

(** X12. Each metric reads the clock for itself, once: a [sync] that
    returns has read it as many times as there are metrics, and one that
    raises no more than that. *)
Theorem sync_reads_clock_per_metric (w : world) (ms : list metric)
    (c : Context) :
  let r := sync_metrics w ms c in
  (clock_reads c <= clock_reads (context_of r)
   <= clock_reads c + length ms)%nat
  ∧ (outcome_of r = Returned tt →
     clock_reads (context_of r) = (clock_reads c + length ms)%nat).
Proof.
  revert c. induction ms as [| m rest IH]; intros c r; subst r.
  - unfold context_of. simpl. lia.
  - simpl. unfold mbind, M_bind, bind.
    destruct (query_metric w (name m) (query m) (aggregation m) (period m)
                (step m) c) as [[o1 c1] t1] eqn:Hrun.
    apply query_metric_clock in Hrun as [Hle Heq].
    destruct o1 as [[] | e |]; unfold context_of, outcome_of; simpl;
      [| split; [lia | done] ..].
    specialize (IH c1). cbv zeta in IH.
    destruct (sync_metrics w rest c1) as [[o2 c2] t2].
    unfold context_of, outcome_of in IH |- *. simpl in *.
    specialize (Heq eq_refl). destruct IH as [IHle IHeq].
    split; [lia |]. intros Hret. rewrite (IHeq Hret). lia.
Qed.

Lemma sync_metrics_app (w : world) (ms1 ms2 : list metric) (c : Context) :
  sync_metrics w (ms1 ++ ms2) c =
  match sync_metrics w ms1 c with
  | (Returned _, c1, t1) =>
      match sync_metrics w ms2 c1 with (o, c2, t2) => (o, c2, t1 ++ t2) end
  | r => r
  end.
Proof.
  revert c. induction ms1 as [| m rest IH]; intros c; simpl.
  - by destruct (sync_metrics w ms2 c) as [[o c2] t2].
  - unfold mbind, M_bind, bind.
    destruct (query_metric w (name m) (query m) (aggregation m) (period m)
                (step m) c) as [[[[] | e |] c1] t1]; try done.
    rewrite IH.
    destruct (sync_metrics w rest c1) as [[[[] | e |] c2] t2]; try done.
    destruct (sync_metrics w ms2 c2) as [[o c3] t3].
    by rewrite app_assoc.
Qed.

(** X13. The metrics are processed in the order of the configuration,
    and the first one that raises ends the run: the trace is that of the
    metrics before it followed by its own, the metrics after it are not
    queried, and the state is not persisted after the exception. *)
Theorem sync_stops_at_first_exception (w : world) (ms1 ms2 : list metric)
    (m : metric) (c : Context) (e : exn) :
  let r1 := sync_metrics w ms1 c in
  let rm := query_metric w (name m) (query m) (aggregation m) (period m)
                         (step m) (context_of r1) in
  outcome_of r1 = Returned tt →
  outcome_of rm = Raised e →
  sync_metrics w (ms1 ++ m :: ms2) c
  = (Raised e, context_of rm, trace_of r1 ++ trace_of rm).
Proof.
  intros r1 rm. subst r1 rm. rewrite sync_metrics_app.
  destruct (sync_metrics w ms1 c) as [[o1 c1] t1].
  unfold outcome_of, context_of, trace_of. simpl. intros ->.
  unfold mbind, M_bind, bind.
  destruct (query_metric w (name m) (query m) (aggregation m) (period m)
              (step m) c1) as [[o c2] t2].
  simpl. by intros ->.
Qed.

Lemma sync_stops_at_first_exception_witness :
  let ms1 := [mkMetric "cpu" "cpu_usage" "avg" "day" 60] in
  let m := mkMetric "mem" "mem_usage" "max" "hour" 60 in
  let ms2 := [mkMetric "disk" "disk_usage" "min" "day" 60] in
  let r1 := sync_metrics example_world ms1 example_context in
  outcome_of r1 = Returned tt
  ∧ outcome_of (query_metric example_world "mem" "mem_usage" "max" "hour"
                             60 (context_of r1))
    = Raised (Exception "Period is not supported: hour")
  ∧ outcome_of (sync_metrics example_world (ms1 ++ m :: ms2)
                             example_context)
    = Raised (Exception "Period is not supported: hour").
Proof.
  set (ms1 := [mkMetric "cpu" "cpu_usage" "avg" "day" 60]).
  set (m := mkMetric "mem" "mem_usage" "max" "hour" 60).
  set (ms2 := [mkMetric "disk" "disk_usage" "min" "day" 60]).
  assert (H1 : outcome_of (sync_metrics example_world ms1 example_context)
               = Returned tt) by (vm_compute; reflexivity).
  assert (H2 : outcome_of (query_metric example_world (name m) (query m)
                 (aggregation m) (period m) (step m)
                 (context_of (sync_metrics example_world ms1
                                example_context)))
               = Raised (Exception "Period is not supported: hour"))
    by (vm_compute; reflexivity).
  cbv zeta. split; [exact H1 |]. split; [exact H2 |].
  rewrite (sync_stops_at_first_exception example_world ms1 ms2 m
             example_context _ H1 H2).
  reflexivity.
Defined.

End Progress.

(* ===================================================================== *)
(** ** Looking up the catalog and reporting the counters *)
(* ===================================================================== *)

Section Catalog.

Lemma filter_none {A} (P : A → Prop) `{∀ x, Decision (P x)} (l : list A) :
  (∀ x, x ∈ l → ¬ P x) → filter P l = [].
Proof.
  induction l as [| x l IH]; intros Hno; [done |].
  rewrite list.filter_cons_False by (apply Hno, elem_of_cons; auto).
  apply IH. intros y Hy. apply Hno, elem_of_cons. auto.
Qed.

Lemma NoDup_fst_unique {A B} (l : list (A * B)) (x : A) (y1 y2 : B) :
  NoDup l.*1 → (x, y1) ∈ l → (x, y2) ∈ l → y1 = y2.
Proof.
  induction l as [| [a b] l IH]; intros Hnd H1 H2.
  - by apply elem_of_nil in H1.
  - rewrite fmap_cons in Hnd. apply list.NoDup_cons in Hnd as [Hnotin Hnd].
    simpl in Hnotin.
    assert (Hfst : ∀ y, (x, y) ∈ l → x ∈ l.*1).
    { intros y Hy. apply list_elem_of_fmap. by exists (x, y). }
    apply elem_of_cons in H1 as [E1 | H1];
      apply elem_of_cons in H2 as [E2 | H2].
    + congruence.
    + injection E1 as -> _. exfalso. eauto.
    + injection E2 as -> _. exfalso. eauto.
    + by apply IH.
Qed.

Lemma stream_map_lookup (streams : list catalog_entry) (s : string) :
  stream_map streams !! s
  = list.last (filter (λ entry, tap_stream_id entry = s) streams).
Proof.
  unfold stream_map.
  induction streams as [| entry rest IH] using rev_ind; [done |].
  rewrite foldl_snoc, list.filter_app, list.filter_cons, list.filter_nil.
  destruct (decide (tap_stream_id entry = s)) as [<- | Hne].
  - by rewrite lookup_insert_eq, last_snoc.
  - by rewrite lookup_insert_ne, app_nil_r.
Qed.

Lemma filter_unique_id (streams : list catalog_entry) (s : string) :
  NoDup (tap_stream_id <$> streams) →
  (length (filter (λ entry, tap_stream_id entry = s) streams) <= 1)%nat.
Proof.
  induction streams as [| entry rest IH]; intros Hnd; [simpl; lia |].
  rewrite fmap_cons in Hnd. apply list.NoDup_cons in Hnd as [Hnotin Hnd].
  rewrite list.filter_cons. destruct (decide (tap_stream_id entry = s)) as [<- |].
  - assert (filter (λ e, tap_stream_id e = tap_stream_id entry) rest = [])
      as ->; [| simpl; lia].
    apply filter_none. intros e He Hid. apply Hnotin. rewrite <- Hid.
    by apply list_elem_of_fmap_2.
  - by apply IH.
Qed.

Lemma get_catalog_entry_last (c : Context) (s : string) :
  get_catalog_entry c s
  = list.last (filter (λ entry, tap_stream_id entry = s) (catalog c)).
Proof. apply stream_map_lookup. Qed.

Lemma get_schema_of_entry (c : Context) (s : string) :
  NoDup (tap_stream_id <$> catalog c) →
  get_schema c s = schema <$> get_catalog_entry c s.
Proof.
  rewrite get_catalog_entry_last. unfold get_schema.
  intros Hnd%(filter_unique_id _ s).
  destruct (filter _ (catalog c)) as [| e1 [| e2 l]]; simpl in *;
    try done. lia.
Qed.

(** X14. In a run, which sets the catalog once and before the first
    lookup, [get_catalog_entry] finds, of the streams of the catalog with
    the id asked for, the last one, and [get_schema] the schema of the
    first one; [get_schema] raises IndexError exactly when
    [get_catalog_entry] returns None; and where no two streams of the
    catalog share an id, the schema [get_schema] returns is that of the
    entry [get_catalog_entry] returns. *)
Theorem catalog_lookups (cfg : Config) (st : gmap string string)
    (cat : list catalog_entry) (s : string) :
  let c := main_context cfg st cat in
  get_catalog_entry c s
  = list.last (filter (λ entry, tap_stream_id entry = s) cat)
  ∧ (get_schema c s = None ↔ get_catalog_entry c s = None)
  ∧ (NoDup (tap_stream_id <$> cat) →
     get_schema c s = schema <$> get_catalog_entry c s).
Proof.
  intros c. change cat with (catalog c).
  split; [apply get_catalog_entry_last |].
  split; [| apply get_schema_of_entry].
  rewrite get_catalog_entry_last. unfold get_schema.
  rewrite fmap_None, last_None.
  destruct (filter _ (catalog c)); simpl; split; congruence.
Qed.

(** X15. In the catalog that [discover] builds from the schemas (a
    dictionary: no two under one name), every schema is found under its
    name, by either lookup, in an entry that has the name for stream and
    for id and date, metric and aggregation for key; a name that has no
    schema has no entry. *)
Theorem discover_then_lookup (raw_schemas : list (string * string))
    (cfg : Config) (st : gmap string string) :
  NoDup raw_schemas.*1 →
  let c := main_context cfg st (discover raw_schemas) in
  (∀ schema_name sch, (schema_name, sch) ∈ raw_schemas →
     get_catalog_entry c schema_name
     = Some (mkEntry schema_name schema_name sch
                     ["date"; "metric"; "aggregation"]%string)
     ∧ get_schema c schema_name = Some sch)
  ∧ (∀ schema_name, schema_name ∉ raw_schemas.*1 →
       get_catalog_entry c schema_name = None).
Proof.
  intros Hnd c.
  assert (Hids : tap_stream_id <$> discover raw_schemas = raw_schemas.*1).
  { unfold discover. rewrite <- list_fmap_compose.
    apply list_fmap_ext. by intros _ [? ?] _. }
  assert (Hentry : ∀ schema_name sch, (schema_name, sch) ∈ raw_schemas →
            get_catalog_entry c schema_name
            = Some (mkEntry schema_name schema_name sch
                            ["date"; "metric"; "aggregation"]%string)).
  { intros schema_name sch Hin.
    pose proof (get_catalog_entry_last c schema_name) as Hlast.
    destruct (get_catalog_entry c schema_name) as [entry |] eqn:Hget.
    - symmetry in Hlast.
      apply last_Some_elem_of, list_elem_of_filter in Hlast as [Hid Hentry].
      simpl in Hentry. unfold discover in Hentry.
      apply list_elem_of_fmap in Hentry as ([name' sch'] & -> & Hin').
      simpl in Hid. subst name'.
      by rewrite (NoDup_fst_unique _ _ _ _ Hnd Hin Hin').
    - symmetry in Hlast. apply last_None in Hlast.
      assert (Hmem : mkEntry schema_name schema_name sch
                       ["date"; "metric"; "aggregation"]%string
                     ∈ filter (λ e, tap_stream_id e = schema_name)
                              (catalog c)).
      { apply list_elem_of_filter. split; [done |]. simpl. unfold discover.
        apply list_elem_of_fmap. by exists (schema_name, sch). }
      rewrite Hlast in Hmem. by apply elem_of_nil in Hmem. }
  split.
  - intros schema_name sch Hin. split; [by apply Hentry |].
    rewrite get_schema_of_entry, (Hentry _ _ Hin); [done |].
    simpl. by rewrite Hids.
  - intros schema_name Hnotin.
    rewrite get_catalog_entry_last.
    apply last_None, filter_none.
    intros e He Hid. apply Hnotin. rewrite <- Hids, <- Hid.
    by apply list_elem_of_fmap_2.
Qed.

Lemma discover_then_lookup_witness :
  NoDup [("aggregated_metric_history", "{}")%string].*1
  ∧ get_schema (main_context example_config ∅
                  (discover [("aggregated_metric_history", "{}")%string]))
               "aggregated_metric_history"
    = Some "{}"%string.
Proof.
  assert (H : NoDup [("aggregated_metric_history", "{}")%string].*1)
    by (apply NoDup_singleton).
  split; [exact H |].
  destruct (discover_then_lookup _ example_config ∅ H) as [Hfound _].
  apply (Hfound "aggregated_metric_history"%string "{}"%string).
  apply list_elem_of_singleton. reflexivity.
Defined.

(** X16. [print_counts] raises KeyError exactly when some stream has a
    count of new records and no count of updates; otherwise it reports,
    for every stream that has a count of new records and for no other,
    that count and the stream's count of updates. *)
Theorem print_counts_reports (c : Context) :
  (print_counts c = None
   ↔ ∃ s, is_Some (new_counts c !! s) ∧ updated_counts c !! s = None)
  ∧ (∀ lines, print_counts c = Some lines →
       ∀ s n u, (s, n, u) ∈ lines
                ↔ new_counts c !! s = Some n ∧ updated_counts c !! s = Some u).
Proof.
  unfold print_counts.
  set (f := λ '(stream_name, stream_count),
              u ← updated_counts c !! stream_name;
              Some (stream_name, stream_count, u)).
  assert (Hf : ∀ s n line, f (s, n) = Some line
                 ↔ ∃ u, updated_counts c !! s = Some u ∧ line = (s, n, u)).
  { intros s n line. unfold f.
    destruct (updated_counts c !! s) as [u |]; simpl; split.
    - intros [= <-]. eauto.
    - by intros (u' & [= <-] & ->).
    - done.
    - by intros (u' & [=] & _). }
  split.
  - rewrite eq_None_not_Some, mapM_is_Some. split.
    + intros Hnot.
      destruct (decide (Exists (λ x, f x = None)
                               (map_to_list (new_counts c)))) as [Hex | Hno].
      * apply Exists_exists in Hex as ([s n] & Hin & Hnone).
        apply list_elem_of_In, elem_of_map_to_list in Hin.
        exists s. split; [eauto |]. unfold f in Hnone.
        by destruct (updated_counts c !! s).
      * exfalso. apply Hnot, Forall_forall. intros x Hx.
        destruct (f x) as [line |] eqn:Hfx; [by eexists |].
        exfalso. apply Hno, Exists_exists. eauto.
    + intros (s & [n Hn] & Hu) Hall.
      apply elem_of_map_to_list in Hn.
      rewrite Forall_forall in Hall.
      destruct (Hall (s, n)) as [line Hline]; [by apply list_elem_of_In |].
      apply Hf in Hline as (u & Hu' & _). congruence.
  - intros lines Hl%mapM_Some s n u. split.
    + intros Hin. apply list_elem_of_lookup in Hin as [i Hi].
      destruct (Forall2_lookup_r _ _ _ _ _ Hl Hi) as ([s' n'] & Hi' & Hfi).
      apply list_elem_of_lookup_2, elem_of_map_to_list in Hi'.
      apply Hf in Hfi as (u' & Hu' & [= -> -> ->]). done.
    + intros [Hn Hu].
      apply elem_of_map_to_list, list_elem_of_lookup in Hn as [i Hi].
      destruct (Forall2_lookup_l _ _ _ _ _ Hl Hi) as (line & Hi' & Hfi).
      apply Hf in Hfi as (u' & Hu' & ->).
      rewrite Hu in Hu'. injection Hu' as <-.
      by eapply list_elem_of_lookup_2.
Qed.

End Catalog.

(* ===================================================================== *)
(** ** The aggregate and the order of the samples *)
(* ===================================================================== *)

Section Series.

Local Open Scope Qc_scope.
Local Abbreviation Zf z := (Num (Qc_of_Z z)).

(** X17. The least and the greatest value of a series do not depend on
    the order of the samples or on how often a value is repeated: two
    series with the same values have the same min and the same max, and
    the min of a series is at most its max. *)
Theorem min_max_of_the_values (l l' : list float) :
  (∀ x, x ∈ l ↔ x ∈ l') →
  aggregate "min" l = aggregate "min" l'
  ∧ aggregate "max" l = aggregate "max" l'
  ∧ (∀ lo hi, aggregate "min" l = inr (Num lo) →
              aggregate "max" l = inr (Num hi) → lo ≤ hi).
Proof.
  intros Hsame'. pose proof (same_values_dropna _ _ Hsame') as Hsame.
  rewrite !aggregate_min, !aggregate_max.
  destruct (decide (dropna l = [])) as [Hnil | Hne].
  { assert (dropna l' = []) as Hnil'.
    { apply same_values_nil. intros x. by rewrite <- Hsame, Hnil. }
    unfold df_min, df_max. rewrite Hnil, Hnil'. done. }
  assert (Hne' : dropna l' ≠ []).
  { intros Hnil'. apply Hne. apply same_values_nil. intros x.
    by rewrite Hsame, Hnil'. }
  destruct (df_min_spec l Hne) as [Hin Hle].
  destruct (df_min_spec l' Hne') as [Hin' Hle'].
  destruct (df_max_spec l Hne) as [Hax Hge].
  destruct (df_max_spec l' Hne') as [Hax' Hge'].
  split_and!.
  - f_equal. apply fle_antisym.
    + apply Hle, Hsame, Hin'.
    + apply Hle', Hsame, Hin.
  - f_equal. apply fle_antisym.
    + apply Hge', Hsame, Hax.
    + apply Hge, Hsame, Hax'.
  - intros lo hi [= Hlo] [= Hhi]. apply fle_Num. rewrite <- Hlo, <- Hhi.
    apply Hle, Hax.
Qed.

Lemma min_max_of_the_values_witness :
  (∀ x, x ∈ [Zf 3; Zf 1; Zf 2] ↔ x ∈ [Zf 1; Zf 2; Zf 2; Zf 3])
  ∧ aggregate "min" [Zf 3; Zf 1; Zf 2]
    = aggregate "min" [Zf 1; Zf 2; Zf 2; Zf 3].
Proof.
  assert (H : ∀ x, x ∈ [Zf 3; Zf 1; Zf 2] ↔ x ∈ [Zf 1; Zf 2; Zf 2; Zf 3]).
  { intros x. rewrite !elem_of_cons, !elem_of_nil. tauto. }
  split; [exact H |].
  destruct (min_max_of_the_values _ _ H) as [Hmin _]. exact Hmin.
Defined.

End Series.

(* ===================================================================== *)
(** ** Schemas and records of a run *)
(* ===================================================================== *)

Section Schemas.

Lemma sync_metrics_Forall (Q : event → Prop) (w : world) (ms : list metric)
    (c : Context) :
  (∀ m c0, Forall Q (trace_of (query_metric w (name m) (query m)
                                 (aggregation m) (period m) (step m) c0))) →
  Forall Q (trace_of (sync_metrics w ms c)).
Proof.
  intros HQ. revert c. induction ms as [| m rest IH]; intros c.
  - constructor.
  - simpl. unfold mbind, M_bind, bind.
    specialize (HQ m c).
    destruct (query_metric w (name m) (query m) (aggregation m) (period m)
                (step m) c) as [[o1 c1] t1].
    unfold trace_of in HQ. simpl in HQ.
    destruct o1 as [[] | e |]; [| exact HQ ..].
    specialize (IH c1).
    destruct (sync_metrics w rest c1) as [[o2 c2] t2].
    unfold trace_of in IH |- *. simpl in *.
    apply Forall_app. by split.
Qed.

(** Without the stream of the records in the catalog, no metric is
    queried. *)
Lemma sync_metrics_without_stream (w : world) (ms : list metric)
    (c : Context) :
  get_catalog_entry c stream_name_ = None →
  trace_of (sync_metrics w ms c) = [].
Proof.
  intros Hcat. destruct ms as [| m rest]; [done |].
  simpl. unfold mbind, M_bind, bind.
  by rewrite (query_metric_without_stream _ _ _ _ _ _ _ Hcat).
Qed.

(** X18. A run declares the schema of every stream of the catalog, once
    each and in the order of the catalog, before it queries the first
    metric, and declares none afterwards; so a record is never written
    before the schema of its stream: a run that writes a record has the
    stream [aggregated_metric_history] in its catalog. *)
Theorem schemas_come_first (w : world) (cfg : Config)
    (st : gmap string string) (cat : list catalog_entry) :
  ∃ tail,
    trace_of (main w cfg st cat)
    = ((λ entry, WriteSchema (tap_stream_id entry) (schema entry)
                             (key_properties entry)) <$> cat) ++ tail
    ∧ Forall (λ e, is_schema_event e = false) tail
    ∧ (record_dates tail ≠ [] → stream_name_ ∈ tap_stream_id <$> cat).
Proof.
  unfold main, sync. run_M.
  pose proof (write_schemas_trace cat (main_context cfg st cat)) as Htr.
  destruct (write_schemas_spec cat (main_context cfg st cat))
    as (c1 & t1 & Hw & _ & _ & Hcat & _).
  rewrite Hw in Htr |- *. unfold trace_of in Htr. simpl in Htr. subst t1.
  pose proof (sync_metrics_Forall (λ e, is_schema_event e = false) w
                (metrics cfg) c1) as Hnone.
  pose proof (sync_metrics_without_stream w (metrics cfg) c1) as Hempty.
  destruct (sync_metrics w (metrics cfg) c1) as [[o2 c2] t2].
  unfold trace_of in *. simpl in *.
  exists t2. split; [done |]. split.
  - apply Hnone. intros m c0. by apply query_metric_Forall.
  - intros Hrec.
    destruct (decide (stream_name_ ∈ tap_stream_id <$> cat)) as [| Hnotin];
      [done |].
    rewrite Hempty in Hrec; [done |].
    rewrite get_catalog_entry_last. apply last_None, filter_none.
    intros entry Hentry Hid. apply Hnotin. rewrite <- Hid, <- Hcat.
    by apply list_elem_of_fmap_2.
Qed.

End Schemas.
